(** * The desktop route that creates a video

    Source: [apps/web/app/api/desktop/video/create/route.ts].

    A shallow embedding of the two exported handlers, [OPTIONS] and [GET],
    and of the JavaScript primitives they are written with.  The handlers
    are [async] functions: they are embedded as programs over the effects
    they perform (cookie store, session lookup, console, id generator,
    clock, database insert, outbound [fetch]) and run against a store by
    [exec]. *)

From Stdlib Require Import Ascii String.
From stdpp Require Import gmap strings list pretty.

Local Open Scope string_scope.
Local Open Scope list_scope.

(** ** JavaScript primitives used by the route *)

Module JS.

(** A value of type [string | undefined] (or [string | null]): [None] is
    the missing value. *)
Definition truthy (v : option string) : bool :=
  match v with
  | Some s => negb (String.eqb s EmptyString)
  | None => false
  end.

(** [v || null] *)
Definition or_null (v : option string) : option string :=
  if truthy v then v else None.

(** The narrowing a truthiness test gives: the string itself when [v] is
    truthy. *)
Definition narrow (v : option string) : option string :=
  match v with
  | Some s => if truthy v then Some s else None
  | None => None
  end.

(** [v && test(v)], for a [test] with a boolean result: the string [v]
    when the conjunction is truthy. *)
Definition and_test (v : option string) (test : string → bool)
  : option string :=
  match narrow v with
  | Some s => if test s then Some s else None
  | None => None
  end.

(** String conversion of [string | undefined], as done by a template
    literal and by [+] against a string. *)
Definition to_string (v : option string) : string :=
  match v with
  | Some s => s
  | None => "undefined"
  end.

(** [s.split(sep)] for a separator of one character. *)
Fixpoint split (sep : ascii) (s : string) : list string :=
  match s with
  | EmptyString => [EmptyString]
  | String c r =>
      if Ascii.eqb c sep then EmptyString :: split sep r
      else match split sep r with
           | [] => [String c EmptyString]
           | piece :: pieces => String c piece :: pieces
           end
  end.

(** [xs.includes(x)] for an array of [string | undefined] and a string
    [x]: an [undefined] element never equals a string. *)
Definition includes (xs : list (option string)) (x : string) : bool :=
  bool_decide (Some x ∈ xs).

(** The values the route hands to [JSON.stringify] and gets back from
    [response.json()]. *)
#[warnings="-register-all"]
Inductive value : Type :=
| Undefined
| Null
| Bool (b : bool)
| Str (s : string)
| Obj (fields : list (string * value)).

Definition of_string (v : option string) : value :=
  match v with
  | Some s => Str s
  | None => Undefined
  end.

Definition dquote : ascii := "034"%char.
Definition backslash : ascii := "092"%char.

Definition hex_digit (n : N) : ascii :=
  ascii_of_N (if (n <? 10)%N then 48 + n else 87 + n)%N.

(** One character of a string inside [JSON.stringify]'s quotes. *)
Definition escape_char (c : ascii) : string :=
  let n := N_of_ascii c in
  if Ascii.eqb c dquote then String backslash (String dquote EmptyString)
  else if Ascii.eqb c backslash
  then String backslash (String backslash EmptyString)
  else if (n =? 8)%N then String backslash "b"
  else if (n =? 9)%N then String backslash "t"
  else if (n =? 10)%N then String backslash "n"
  else if (n =? 12)%N then String backslash "f"
  else if (n =? 13)%N then String backslash "r"
  else if (n <? 32)%N then
    String backslash
      (String "u" (String "0" (String "0"
        (String (hex_digit (n / 16))
          (String (hex_digit (n mod 16)) EmptyString)))))
  else String c EmptyString.

Fixpoint escape (s : string) : string :=
  match s with
  | EmptyString => EmptyString
  | String c r => escape_char c +:+ escape r
  end.

Definition quote (s : string) : string :=
  String dquote (escape s +:+ String dquote EmptyString).

Fixpoint join (sep : string) (xs : list string) : string :=
  match xs with
  | [] => EmptyString
  | [x] => x
  | x :: rest => x +:+ sep +:+ join sep rest
  end.

(** [JSON.stringify(v)]: [undefined] has no text, and a property whose
    value is [undefined] is left out of its object. *)
Fixpoint stringify (v : value) : option string :=
  match v with
  | Undefined => None
  | Null => Some "null"
  | Bool b => Some (if b then "true" else "false")
  | Str s => Some (quote s)
  | Obj fields =>
      let members :=
        (fix members (fs : list (string * value)) : list string :=
           match fs with
           | [] => []
           | (k, x) :: rest =>
               match stringify x with
               | Some t => (quote k +:+ ":" +:+ t) :: members rest
               | None => members rest
               end
           end) fields in
      Some ("{" +:+ join "," members +:+ "}")
  end.

(** Property read [o.k] on a value. *)
Definition prop (k : string) (v : value) : value :=
  match v with
  | Obj fields =>
      match list_find (λ kv, kv.1 = k) fields with
      | Some (_, (_, x)) => x
      | None => Undefined
      end
  | _ => Undefined
  end.

(** A settled promise. *)
Inductive settled (A : Type) : Type :=
| Fulfilled (a : A)
| Rejected (reason : string).
Global Arguments Fulfilled {A} a.
Global Arguments Rejected {A} reason.

End JS.

(** ** Data of the route *)

(** [process.env], the variables the route reads. *)
Record ProcessEnv : Type := {
  NEXT_PUBLIC_URL : option string;
  CAP_AWS_REGION : option string;
  CAP_AWS_BUCKET : option string;
  NEXT_PUBLIC_IS_CAP : option string;
  NEXT_PUBLIC_ENVIRONMENT : option string;
  DUB_API_KEY : option string;
}.

(** The argument of [cookies().set]. *)
Inductive SameSite : Type := SameSiteStrict | SameSiteLax | SameSiteNone.

Record Cookie : Type := {
  name : string;
  value : string;
  path : string;
  sameSite : SameSite;
  secure : bool;
  httpOnly : bool;
}.

(** What [getCurrentUser] resolves to, when it resolves. *)
Record User : Type := { userId : string }.

(** A row of the [videos] table, as the route fills it; [video_name] is
    its [name] column. *)
Record VideoRecord : Type := {
  id : string;
  video_name : string;
  ownerId : string;
  awsRegion : option string;
  awsBucket : option string;
}.

(** [Date]: day of the month, month index (0 is January) and year. *)
Record Date : Type := {
  getDate : N;
  getMonth : N;
  getFullYear : Z;
}.

(** [NextRequest]: the headers (names in lower case), the query string as
    [searchParams] keeps it, and the origin of the request URL. *)
Record NextRequest : Type := {
  headers : gmap string string;
  searchParams : list (string * string);
  nextUrl_origin : string;
}.

(** [params.get(k)]: the first value recorded for [k]. *)
Definition searchParams_get (k : string) (params : list (string * string))
  : option string :=
  match list_find (λ kv, kv.1 = k) params with
  | Some (_, (_, v)) => Some v
  | None => None
  end.

(** [new Response(body, { status, headers })]. *)
Record Response : Type := {
  status : Z;
  body : option string;
  response_headers : list (string * string);
}.

(** The second argument of [fetch]. *)
Record RequestInit : Type := {
  method : string;
  request_headers : list (string * string);
  request_body : option string;
}.

(** The part of a fetched response the route uses: [response.json()]. *)
Record FetchResponse : Type := { json : JS.settled JS.value }.

(** ** Effects and programs

    Each call the handlers make to a collaborator is an effect; an [async]
    handler is a program that performs effects in sequence and returns. *)

Inductive console_args : Type :=
| LogCookies (label : string) (all : list Cookie)
| LogValue (v : JS.value).

Inductive effect : Type → Type :=
| CookiesSet (c : Cookie) : effect unit
| CookiesGetAll : effect (list Cookie)
| GetCurrentUser : effect (option User)
| ConsoleLog (args : console_args) : effect unit
| ConsoleError (reason : string) : effect unit
| NanoId : effect string
| NewDate : effect Date
| ToLocaleMonthLong (d : Date) : effect string
| DbInsertVideos (row : VideoRecord) : effect unit
| Fetch (url : string) (init : RequestInit)
    : effect (JS.settled FetchResponse).

Inductive prog (A : Type) : Type :=
| Ret (a : A)
| Vis {X : Type} (e : effect X) (k : X → prog A).
Arguments Ret {A} a.
Arguments Vis {A X} e k.

Fixpoint prog_bind {A B : Type} (f : A → prog B) (p : prog A) : prog B :=
  match p with
  | Ret a => f a
  | Vis e k => Vis e (λ x, prog_bind f (k x))
  end.

Definition call {X : Type} (e : effect X) : prog X := Vis e Ret.

#[global] Instance prog_ret : MRet prog := @Ret.
#[global] Instance prog_mbind : MBind prog := @prog_bind.

(** ** The store the effects act on *)

(** What a handler has done, in order. *)
Inductive event : Type :=
| EvCookiesSet (c : Cookie)
| EvCookiesGetAll
| EvGetCurrentUser
| EvConsoleLog (args : console_args)
| EvConsoleError (reason : string)
| EvNanoId
| EvNewDate
| EvDbInsert (row : VideoRecord)
| EvFetch (url : string) (init : RequestInit).

Record Store : Type := {
  cookieJar : gmap string Cookie;
  videos : list VideoRecord;
  trace : list event;
}.

Definition record (ev : event) (st : Store) : Store :=
  {| cookieJar := cookieJar st; videos := videos st;
     trace := trace st ++ [ev] |}.

(** The collaborators, taken when they answer: the session subsystem
    reads the cookie store, the id generator and the clock give a value,
    the default locale names the month of a date, the database takes the
    row.  The one failure the route handles itself, that of the outbound
    call, is part of [perform] below. *)
Record World : Type := {
  getCurrentUser : gmap string Cookie → option User;
  nanoId : string;
  now : Date;
  month_long : Date → string;
}.

(** What performing one effect gives: its answer and the new store, or,
    for an outbound call that has not settled, nothing to go on with. *)
Inductive reply (X : Type) : Type :=
| Answer (x : X) (st : Store)
| Unsettled (st : Store) (url : string) (init : RequestInit).
Arguments Answer {X} x st.
Arguments Unsettled {X} st url init.

(** Modelled from the spec: the collaborators the route imports, whose
    code is not in this file ([cookies] of next/headers, [getCurrentUser],
    [nanoId] and [db.insert(videos)] of the database package, [fetch], the
    clock and the console).  A cookie set replaces the cookie of that name,
    the session is resolved from the cookie store, an insert adds one row
    to the table, and the outbound call answers with its settlement [net],
    [None] while it has not settled. *)
Definition perform {X : Type} (w : World)
    (net : option (JS.settled FetchResponse)) (e : effect X) (st : Store)
  : reply X :=
  match e in effect X return reply X with
  | CookiesSet c =>
      Answer tt {| cookieJar := <[name c := c]> (cookieJar st);
                   videos := videos st;
                   trace := trace st ++ [EvCookiesSet c] |}
  | CookiesGetAll =>
      Answer (snd <$> map_to_list (cookieJar st)) (record EvCookiesGetAll st)
  | GetCurrentUser =>
      Answer (getCurrentUser w (cookieJar st)) (record EvGetCurrentUser st)
  | ConsoleLog args => Answer tt (record (EvConsoleLog args) st)
  | ConsoleError reason => Answer tt (record (EvConsoleError reason) st)
  | NanoId => Answer (nanoId w) (record EvNanoId st)
  | NewDate => Answer (now w) (record EvNewDate st)
  | ToLocaleMonthLong d => Answer (month_long w d) st
  | DbInsertVideos row =>
      Answer tt {| cookieJar := cookieJar st;
                   videos := videos st ++ [row];
                   trace := trace st ++ [EvDbInsert row] |}
  | Fetch url init =>
      match net with
      | Some r => Answer r (record (EvFetch url init) st)
      | None => Unsettled (record (EvFetch url init) st) url init
      end
  end.

(** How a run of a handler ends: with its return value, or suspended on
    the outbound call [url], [init] it awaits. *)
Inductive outcome (A : Type) : Type :=
| Finished (st : Store) (a : A)
| Pending (st : Store) (url : string) (init : RequestInit).
Arguments Finished {A} st a.
Arguments Pending {A} st url init.

Fixpoint exec {A : Type} (w : World)
    (net : option (JS.settled FetchResponse)) (p : prog A) (st : Store)
  : outcome A :=
  match p with
  | Ret a => Finished st a
  | Vis e k =>
      match perform w net e st with
      | Answer x st' => exec w net (k x) st'
      | Unsettled st' url init => Pending st' url init
      end
  end.

(** ** The route *)

Definition allowedOrigins (env : ProcessEnv) : list (option string) :=
  [ NEXT_PUBLIC_URL env;
    Some "http://localhost:3001";
    Some "tauri://localhost";
    Some "http://tauri.localhost";
    Some "https://tauri.localhost" ].

Definition OPTIONS (env : ProcessEnv) (req : NextRequest) : prog Response :=
  let params := searchParams req in
  let origin := JS.or_null (searchParams_get "origin" params) in
  let originalOrigin := nextUrl_origin req in
  mret {|
    status := 200;
    body := None;
    response_headers :=
      [ ("Access-Control-Allow-Origin",
          match JS.and_test origin (JS.includes (allowedOrigins env)) with
          | Some origin => origin
          | None =>
              if JS.includes (allowedOrigins env) originalOrigin
              then originalOrigin
              else "null"
          end);
        ("Access-Control-Allow-Credentials", "true");
        ("Access-Control-Allow-Methods", "GET, OPTIONS");
        ("Access-Control-Allow-Headers",
          "Authorization, sentry-trace, baggage") ];
  |}.

Definition GET (env : ProcessEnv) (req : NextRequest) : prog Response :=
  let token :=
    match headers req !! "authorization" with
    | Some authorization => JS.split " " authorization !! 1%nat
    | None => None
    end in
  match JS.narrow token with
  | Some token =>
      call (CookiesSet {|
        name := "next-auth.session-token";
        value := token;
        path := "/";
        sameSite := SameSiteNone;
        secure := true;
        httpOnly := true;
      |})
  | None => mret tt
  end;;
  user ← call GetCurrentUser;
  let awsRegion := CAP_AWS_REGION env in
  let awsBucket := CAP_AWS_BUCKET env in
  let params := searchParams req in
  let origin := JS.or_null (searchParams_get "origin" params) in
  let originalOrigin := nextUrl_origin req in
  all ← call CookiesGetAll;
  call (ConsoleLog (LogCookies "cookies:" all));;
  match user with
  | None =>
      mret {|
        status := 401;
        body := JS.stringify (JS.Obj [("error", JS.Bool true)]);
        response_headers :=
          [ ("Access-Control-Allow-Origin",
              match JS.and_test origin (JS.includes (allowedOrigins env)) with
              | Some origin => origin
              | None =>
                  if JS.includes (allowedOrigins env) originalOrigin
                  then originalOrigin
                  else "null"
              end);
            ("Access-Control-Allow-Credentials", "true");
            ("Access-Control-Allow-Methods", "GET, OPTIONS");
            ("Access-Control-Allow-Headers",
              "Authorization, sentry-trace, baggage") ];
      |}
  | Some user =>
      id ← call NanoId;
      date ← call NewDate;
      month ← call (ToLocaleMonthLong date);
      let formattedDate :=
        pretty (getDate date) +:+ " " +:+ month +:+ " "
          +:+ pretty (getFullYear date) in
      call (DbInsertVideos {|
        id := id;
        video_name := "My Cap Recording - " +:+ formattedDate;
        ownerId := userId user;
        awsRegion := awsRegion;
        awsBucket := awsBucket;
      |});;
      (if JS.truthy (NEXT_PUBLIC_IS_CAP env)
          && bool_decide (NEXT_PUBLIC_ENVIRONMENT env = Some "production")
       then
         let dubOptions := {|
           method := "POST";
           request_headers :=
             [ ("Authorization",
                 "Bearer " +:+ JS.to_string (DUB_API_KEY env));
               ("Content-Type", "application/json") ];
           request_body :=
             JS.stringify (JS.Obj
               [ ("url",
                   JS.Str (JS.to_string (NEXT_PUBLIC_URL env)
                             +:+ "/s/" +:+ id));
                 ("key", JS.Str id) ]);
         |} in
         settled ← call (Fetch "https://api.dub.co/links?projectSlug=cap"
                           dubOptions);
         match settled with
         | JS.Fulfilled response =>
             match json response with
             | JS.Fulfilled response =>
                 call (ConsoleLog (LogValue response))
             | JS.Rejected err => call (ConsoleError err)
             end
         | JS.Rejected err => call (ConsoleError err)
         end
       else mret tt);;
      mret {|
        status := 200;
        body :=
          JS.stringify (JS.Obj
            [ ("id", JS.Str id);
              ("user_id", JS.Str (userId user));
              ("aws_region", JS.of_string awsRegion);
              ("aws_bucket", JS.of_string awsBucket) ]);
        response_headers :=
          [ ("Access-Control-Allow-Origin",
              match JS.and_test origin (JS.includes (allowedOrigins env)) with
              | Some origin => origin
              | None =>
                  if JS.includes (allowedOrigins env) originalOrigin
                  then originalOrigin
                  else "null"
              end);
            ("Access-Control-Allow-Credentials", "true");
            ("Access-Control-Allow-Methods", "GET, OPTIONS");
            ("Access-Control-Allow-Headers",
              "Authorization, sentry-trace, baggage") ];
      |}
  end.

(** ** Vocabulary of the statements *)

Definition header (k : string) (r : Response) : option string :=
  match list_find (λ kv, kv.1 = k) (response_headers r) with
  | Some (_, (_, v)) => Some v
  | None => None
  end.

(** The store a run has reached, finished or suspended. *)
Definition final_store {A : Type} (o : outcome A) : Store :=
  match o with
  | Finished st _ => st
  | Pending st _ _ => st
  end.

Definition response_of {A : Type} (o : outcome A) : option A :=
  match o with
  | Finished _ a => Some a
  | Pending _ _ _ => None
  end.

(** The [origin] of the handlers: the query parameter, an empty one
    counting as none. *)
Definition origin_of (req : NextRequest) : option string :=
  JS.or_null (searchParams_get "origin" (searchParams req)).

(** The resolver in the words of the specification: [origin] when it is
    present and in the allow-list, else the request origin when that is in
    the allow-list, else the literal [null]. *)
Definition spec_cors_origin (allowList : list (option string))
    (origin : option string) (requestOrigin : string) : string :=
  match origin with
  | Some o =>
      if bool_decide (Some o ∈ allowList) then o
      else if bool_decide (Some requestOrigin ∈ allowList) then requestOrigin
      else "null"
  | None =>
      if bool_decide (Some requestOrigin ∈ allowList) then requestOrigin
      else "null"
  end.

Definition spec_cors_headers (env : ProcessEnv) (req : NextRequest)
  : list (string * string) :=
  [ ("Access-Control-Allow-Origin",
      spec_cors_origin (allowedOrigins env) (origin_of req)
        (nextUrl_origin req));
    ("Access-Control-Allow-Credentials", "true");
    ("Access-Control-Allow-Methods", "GET, OPTIONS");
    ("Access-Control-Allow-Headers", "Authorization, sentry-trace, baggage") ].

(** The second piece of the [authorization] header cut at each space,
    when the header is there, has such a piece, and the piece is not
    empty. *)
Definition bridged_token (req : NextRequest) : option string :=
  match headers req !! "authorization" with
  | Some h => JS.narrow (JS.split " " h !! 1%nat)
  | None => None
  end.

Definition session_cookie (token : string) : Cookie :=
  {| name := "next-auth.session-token"; value := token; path := "/";
     sameSite := SameSiteNone; secure := true; httpOnly := true |}.

(** The cookie store as the session lookup finds it. *)
Definition jar_at_lookup (req : NextRequest) (st : Store)
  : gmap string Cookie :=
  match bridged_token req with
  | Some t => <["next-auth.session-token" := session_cookie t]> (cookieJar st)
  | None => cookieJar st
  end.

(** The user the session resolves to in a run of [GET] from [st]. *)
Definition resolved (w : World) (req : NextRequest) (st : Store)
  : option User :=
  getCurrentUser w (jar_at_lookup req st).

Definition bridge_events (req : NextRequest) : list event :=
  match bridged_token req with
  | Some t => [EvCookiesSet (session_cookie t)]
  | None => []
  end.

(** The events of [GET] up to the test on the user. *)
Definition lookup_events (req : NextRequest) (st : Store) : list event :=
  bridge_events req ++
  [ EvGetCurrentUser; EvCookiesGetAll;
    EvConsoleLog
      (LogCookies "cookies:" (snd <$> map_to_list (jar_at_lookup req st))) ].

Definition display_name (w : World) : string :=
  "My Cap Recording - " +:+ pretty (getDate (now w)) +:+ " "
    +:+ month_long w (now w) +:+ " "
    +:+ pretty (getFullYear (now w)).

Definition new_video (w : World) (env : ProcessEnv) (u : User)
  : VideoRecord :=
  {| id := nanoId w; video_name := display_name w; ownerId := userId u;
     awsRegion := CAP_AWS_REGION env; awsBucket := CAP_AWS_BUCKET env |}.

Definition created_body (w : World) (env : ProcessEnv) (u : User)
  : JS.value :=
  JS.Obj [ ("id", JS.Str (nanoId w));
           ("user_id", JS.Str (userId u));
           ("aws_region", JS.of_string (CAP_AWS_REGION env));
           ("aws_bucket", JS.of_string (CAP_AWS_BUCKET env)) ].

(** The deployment is the hosted production one. *)
Definition hosted_production (env : ProcessEnv) : bool :=
  JS.truthy (NEXT_PUBLIC_IS_CAP env)
  && bool_decide (NEXT_PUBLIC_ENVIRONMENT env = Some "production").

Definition dub_url : string := "https://api.dub.co/links?projectSlug=cap".

Definition dub_init (w : World) (env : ProcessEnv) : RequestInit :=
  {| method := "POST";
     request_headers :=
       [ ("Authorization", "Bearer " +:+ JS.to_string (DUB_API_KEY env));
         ("Content-Type", "application/json") ];
     request_body :=
       JS.stringify (JS.Obj
         [ ("url", JS.Str (JS.to_string (NEXT_PUBLIC_URL env)
                             +:+ "/s/" +:+ nanoId w));
           ("key", JS.Str (nanoId w)) ]) |}.

(** What the promise chain on the outbound call leaves on the console. *)
Definition dub_logged (o : JS.settled FetchResponse) : event :=
  match o with
  | JS.Fulfilled response =>
      match json response with
      | JS.Fulfilled v => EvConsoleLog (LogValue v)
      | JS.Rejected err => EvConsoleError err
      end
  | JS.Rejected err => EvConsoleError err
  end.

(** The outbound calls among the events. *)
Definition fetches (evs : list event) : list (string * RequestInit) :=
  omap (λ ev, match ev with
              | EvFetch url init => Some (url, init)
              | _ => None
              end) evs.

Definition with_events (evs : list event) (st : Store) : Store :=
  {| cookieJar := cookieJar st; videos := videos st;
     trace := trace st ++ evs |}.

Definition unauthorized (env : ProcessEnv) (req : NextRequest) : Response :=
  {| status := 401;
     body := Some ("{" +:+ JS.quote "error" +:+ ":true}");
     response_headers := spec_cors_headers env req |}.

Definition created (w : World) (env : ProcessEnv) (req : NextRequest)
    (u : User) : Response :=
  {| status := 200;
     body := JS.stringify (created_body w env u);
     response_headers := spec_cors_headers env req |}.

(** The stores a run of [GET] goes through: at the test on the user,
    and after the insert. *)
Definition at_lookup (req : NextRequest) (st : Store) : Store :=
  {| cookieJar := jar_at_lookup req st; videos := videos st;
     trace := trace st ++ lookup_events req st |}.

Definition at_insert (w : World) (env : ProcessEnv) (req : NextRequest)
    (u : User) (st : Store) : Store :=
  {| cookieJar := jar_at_lookup req st;
     videos := videos st ++ [new_video w env u];
     trace := trace st ++ lookup_events req st
                ++ [EvNanoId; EvNewDate; EvDbInsert (new_video w env u)] |}.

(** *** Cutting a string at a separator *)

(** What follows the first [sep] of [s], when [s] has one. *)
Fixpoint after_first (sep : ascii) (s : string) : option string :=
  match s with
  | EmptyString => None
  | String c r => if Ascii.eqb c sep then Some r else after_first sep r
  end.

(** [s] up to its first [sep], or all of it. *)
Fixpoint up_to (sep : ascii) (s : string) : string :=
  match s with
  | EmptyString => EmptyString
  | String c r => if Ascii.eqb c sep then EmptyString
                  else String c (up_to sep r)
  end.

(** *** The bearer token in the words of the specification *)

Definition is_whitespace (c : ascii) : bool :=
  let n := N_of_ascii c in
  (n =? 32)%N || ((9 <=? n)%N && (n <=? 13)%N).

(** The whitespace-delimited tokens of [s]. *)
Fixpoint tokens (s : string) : list string :=
  match s with
  | EmptyString => []
  | String c r =>
      if is_whitespace c then tokens r
      else match r with
           | EmptyString => [String c EmptyString]
           | String c' _ =>
               if is_whitespace c' then String c EmptyString :: tokens r
               else match tokens r with
                    | t :: ts => String c t :: ts
                    | [] => [String c EmptyString]
                    end
           end
  end.

(** The second whitespace-delimited token of the header, the one after
    [Bearer]. *)
Definition spec_bearer_token (authorization : option string)
  : option string :=
  match authorization with
  | Some h =>
      match tokens h with
      | scheme :: t :: _ =>
          if String.eqb scheme "Bearer" then Some t else None
      | _ => None
      end
  | None => None
  end.

(** *** Further vocabulary *)

(** [c] occurs in [s]. *)
Fixpoint has_char (c : ascii) (s : string) : bool :=
  match s with
  | EmptyString => false
  | String d r => Ascii.eqb d c || has_char c r
  end.

(** The request with its [authorization] header set to [h]. *)
Definition with_authorization (h : string) (req : NextRequest)
  : NextRequest :=
  {| headers := <["authorization" := h]> (headers req);
     searchParams := searchParams req;
     nextUrl_origin := nextUrl_origin req |}.

(** The origins of the allow-list that do not come from the environment. *)
Definition fixed_origins : list string :=
  [ "http://localhost:3001"; "tauri://localhost";
    "http://tauri.localhost"; "https://tauri.localhost" ].

(** The text of a property that [JSON.stringify] writes after the first
    one, nothing for a value that is [undefined]. *)
Definition later_member (k : string) (v : option string) : string :=
  match v with
  | Some s => "," +:+ JS.quote k +:+ ":" +:+ JS.quote s
  | None => EmptyString
  end.

(** The events a run of [GET] performs before it tests the user. *)
Definition is_lookup_event (ev : event) : bool :=
  match ev with
  | EvCookiesSet _ | EvGetCurrentUser | EvCookiesGetAll
  | EvConsoleLog (LogCookies _ _) => true
  | _ => false
  end.

(** Reading back what [JS.escape] wrote, up to the closing quote: the
    text read and what follows the quote. *)
Definition hex_value (c : ascii) : option N :=
  let n := N_of_ascii c in
  if (48 <=? n)%N && (n <=? 57)%N then Some (n - 48)%N
  else if (97 <=? n)%N && (n <=? 102)%N then Some (n - 87)%N
  else None.

Fixpoint read_escaped (s : string) : option (string * string) :=
  match s with
  | EmptyString => None
  | String c r =>
      if Ascii.eqb c JS.dquote then Some (EmptyString, r)
      else if Ascii.eqb c JS.backslash then
        match r with
        | EmptyString => None
        | String d r' =>
            let put (x : ascii) (rest : string) :=
              match read_escaped rest with
              | Some (t, tail) => Some (String x t, tail)
              | None => None
              end in
            if Ascii.eqb d JS.dquote then put JS.dquote r'
            else if Ascii.eqb d JS.backslash then put JS.backslash r'
            else if Ascii.eqb d "b" then put "008"%char r'
            else if Ascii.eqb d "t" then put "009"%char r'
            else if Ascii.eqb d "n" then put "010"%char r'
            else if Ascii.eqb d "f" then put "012"%char r'
            else if Ascii.eqb d "r" then put "013"%char r'
            else if Ascii.eqb d "u" then
              match r' with
              | String _ (String _ (String h (String l r''))) =>
                  match hex_value h, hex_value l with
                  | Some x, Some y => put (ascii_of_N (16 * x + y)) r''
                  | _, _ => None
                  end
              | _ => None
              end
            else None
        end
      else
        match read_escaped r with
        | Some (t, tail) => Some (String c t, tail)
        | None => None
        end
  end.

(** [s] without the prefix [p], when it starts with it. *)
Fixpoint strip (p s : string) : option string :=
  match p with
  | EmptyString => Some s
  | String c p' =>
      match s with
      | String d s' => if Ascii.eqb c d then strip p' s' else None
      | EmptyString => None
      end
  end.

(** Reading back a quoted string written by [JS.quote]. *)
Definition read_quoted (s : string) : option (string * string) :=
  match s with
  | String c r => if Ascii.eqb c JS.dquote then read_escaped r else None
  | EmptyString => None
  end.

(** Reading back the first two properties of the text of the 200 body. *)
Definition read_id_and_user (text : string) : option (string * string) :=
  match strip ("{" +:+ JS.quote "id" +:+ ":") text with
  | Some t1 =>
      match read_quoted t1 with
      | Some (i, t2) =>
          match strip ("," +:+ JS.quote "user_id" +:+ ":") t2 with
          | Some t3 =>
              match read_quoted t3 with
              | Some (u, _) => Some (i, u)
              | None => None
              end
          | None => None
          end
      | None => None
      end
  | None => None
  end.

(** ** Sample inputs *)

Module Sample.

Definition en_US_month_long (m : N) : string :=
  nth (N.to_nat m)
    [ "January"; "February"; "March"; "April"; "May"; "June"; "July";
      "August"; "September"; "October"; "November"; "December" ] EmptyString.

(** A session subsystem that knows one session token, of user [u1]. *)
Definition world : World :=
  {| getCurrentUser := λ jar,
       match jar !! "next-auth.session-token" with
       | Some c =>
           if String.eqb (value c) "abc123" then Some {| userId := "u1" |}
           else None
       | None => None
       end;
     nanoId := "v1d30";
     now := {| getDate := 2; getMonth := 10; getFullYear := 2026 |};
     month_long := λ d, en_US_month_long (getMonth d) |}.

Definition hosted : ProcessEnv :=
  {| NEXT_PUBLIC_URL := Some "https://cap.so";
     CAP_AWS_REGION := Some "us-east-1";
     CAP_AWS_BUCKET := Some "b1";
     NEXT_PUBLIC_IS_CAP := Some "true";
     NEXT_PUBLIC_ENVIRONMENT := Some "production";
     DUB_API_KEY := Some "k3y" |}.

Definition self_hosted : ProcessEnv :=
  {| NEXT_PUBLIC_URL := Some "http://localhost:3000";
     CAP_AWS_REGION := Some "us-east-1";
     CAP_AWS_BUCKET := Some "b1";
     NEXT_PUBLIC_IS_CAP := None;
     NEXT_PUBLIC_ENVIRONMENT := Some "development";
     DUB_API_KEY := None |}.

Definition request (authorization : option string) (origin : option string)
  : NextRequest :=
  {| headers :=
       match authorization with
       | Some a => {[ "authorization" := a ]}
       | None => ∅
       end;
     searchParams :=
       match origin with
       | Some o => [("origin", o)]
       | None => []
       end;
     nextUrl_origin := "https://cap.so" |}.

Definition empty : Store := {| cookieJar := ∅; videos := []; trace := [] |}.

(** A deployment whose [NEXT_PUBLIC_URL] is set to the empty string, and
    one where it is not set. *)
Definition blank_url : ProcessEnv :=
  {| NEXT_PUBLIC_URL := Some EmptyString;
     CAP_AWS_REGION := None; CAP_AWS_BUCKET := None;
     NEXT_PUBLIC_IS_CAP := None;
     NEXT_PUBLIC_ENVIRONMENT := None; DUB_API_KEY := None |}.

Definition self_hosted_no_url : ProcessEnv :=
  {| NEXT_PUBLIC_URL := None;
     CAP_AWS_REGION := None; CAP_AWS_BUCKET := None;
     NEXT_PUBLIC_IS_CAP := None;
     NEXT_PUBLIC_ENVIRONMENT := None; DUB_API_KEY := None |}.

Definition dub_ok : JS.settled FetchResponse :=
  JS.Fulfilled {| json := JS.Fulfilled (JS.Obj [("id", JS.Str "lnk")]) |}.

Definition dub_down : JS.settled FetchResponse :=
  JS.Rejected "TypeError: fetch failed".

End Sample.

(** ** Running the handlers: general facts *)

Lemma exec_bind {A B : Type} w net (p : prog A) (f : A → prog B) st :
  exec w net (p ≫= f) st =
  match exec w net p st with
  | Finished st' a => exec w net (f a) st'
  | Pending st' url init => Pending st' url init
  end.
Proof.
  revert st. induction p as [a | X e k IH]; intros st.
  - reflexivity.
  - change (Vis e k ≫= f) with (Vis e (λ x, k x ≫= f)).
    simpl. destruct (perform w net e st) as [x st' | st' url init].
    + apply IH.
    + reflexivity.
Qed.

Lemma exec_call {X : Type} w net (e : effect X) st :
  exec w net (call e) st =
  match perform w net e st with
  | Answer x st' => Finished st' x
  | Unsettled st' url init => Pending st' url init
  end.
Proof. reflexivity. Qed.

Lemma exec_ret {A : Type} w net (a : A) st :
  exec w net (mret a) st = Finished st a.
Proof. reflexivity. Qed.

Ltac run_handler :=
  repeat first
    [ rewrite exec_bind | rewrite exec_call | rewrite exec_ret
    | progress (simpl perform; cbv beta iota)
    | progress cbn [json] ].

Ltac no_cookie_event :=
  let H := fresh in
  intros H; repeat (destruct H as [H|H]; [discriminate H|]);
  first [discriminate H | exact H].

(** The store [GET] has reached, whatever the run. *)

(** ** The runs of the handlers *)

Lemma includes_decide xs x : JS.includes xs x = bool_decide (Some x ∈ xs).
Proof. reflexivity. Qed.

Lemma or_null_narrow v : JS.narrow (JS.or_null v) = JS.or_null v.
Proof. destruct v as [s|]; [|done]. unfold JS.or_null, JS.narrow.
  destruct (JS.truthy (Some s)) eqn:E; [by rewrite E | done]. Qed.

(** The inline header expression of the three response sites is the
    resolver of the specification. *)
Lemma inline_origin_spec env req :
  match JS.and_test (origin_of req) (JS.includes (allowedOrigins env)) with
  | Some origin => origin
  | None =>
      if JS.includes (allowedOrigins env) (nextUrl_origin req)
      then nextUrl_origin req else "null"
  end
  = spec_cors_origin (allowedOrigins env) (origin_of req)
      (nextUrl_origin req).
Proof.
  unfold JS.and_test, origin_of. rewrite or_null_narrow.
  unfold spec_cors_origin.
  destruct (JS.or_null _) as [o|]; [|done].
  rewrite !includes_decide. by destruct (bool_decide (Some o ∈ _)).
Qed.

Lemma exec_GET w net env req st :
  exec w net (GET env req) st =
  match resolved w req st with
  | None => Finished (at_lookup req st) (unauthorized env req)
  | Some u =>
      if hosted_production env then
        match net with
        | Some o =>
            Finished
              (with_events [EvFetch dub_url (dub_init w env); dub_logged o]
                 (at_insert w env req u st))
              (created w env req u)
        | None =>
            Pending
              (with_events [EvFetch dub_url (dub_init w env)]
                 (at_insert w env req u st))
              dub_url (dub_init w env)
        end
      else Finished (at_insert w env req u st) (created w env req u)
  end.
Proof.
  unfold GET, resolved, at_lookup, at_insert, lookup_events, bridge_events,
    jar_at_lookup, bridged_token.
  rewrite exec_bind.
  set (tok := match headers req !! "authorization" with
              | Some h => JS.split " " h !! 1%nat
              | None => None
              end).
  assert (Htok : match headers req !! "authorization" with
                 | Some h => JS.narrow (JS.split " " h !! 1%nat)
                 | None => None
                 end = JS.narrow tok).
  { subst tok. by destruct (headers req !! "authorization"). }
  rewrite Htok. clear Htok.
  destruct (JS.narrow tok) as [t|]; run_handler.
  all: fold (session_cookie t) || idtac.
  all: match goal with
       | |- context [getCurrentUser ?w0 ?j] =>
           destruct (getCurrentUser w0 j) as [u|]
       end; run_handler.
  all: change (JS.or_null (searchParams_get "origin" (searchParams req)))
         with (origin_of req);
       rewrite inline_origin_spec.
  all: unfold hosted_production;
       try (destruct (JS.truthy (NEXT_PUBLIC_IS_CAP env)
                      && bool_decide (NEXT_PUBLIC_ENVIRONMENT env
                                      = Some "production"));
            [destruct net as [[[[v|err]]|err]|]|]);
       run_handler.
  all: unfold record, with_events, unauthorized, created, created_body,
         new_video, display_name, dub_url, dub_init, dub_logged;
       cbn [trace cookieJar videos json];
       rewrite <- ?app_assoc; reflexivity.
Qed.

Lemma exec_OPTIONS w net env req st :
  exec w net (OPTIONS env req) st =
  Finished st {| status := 200; body := None;
                 response_headers := spec_cors_headers env req |}.
Proof.
  unfold OPTIONS. rewrite exec_ret.
  change (JS.or_null (searchParams_get "origin" (searchParams req)))
    with (origin_of req).
  by rewrite inline_origin_spec.
Qed.

Lemma GET_final_store w net env req st :
  ∃ evs, cookieJar (final_store (exec w net (GET env req) st))
         = jar_at_lookup req st
       ∧ trace (final_store (exec w net (GET env req) st))
         = trace st ++ lookup_events req st ++ evs
       ∧ ∀ c, EvCookiesSet c ∉ evs.
Proof.
  rewrite exec_GET. destruct (resolved w req st) as [u|].
  - destruct (hosted_production env); [destruct net as [o|]|].
    + eexists (_ :: _ :: _ :: _ :: [_]). cbn.
      split; [done|]. split; [by rewrite <- !app_assoc|].
      intros c. rewrite !elem_of_cons, elem_of_nil.
      destruct o as [[[v|err]]|err]; cbn; no_cookie_event.
    + eexists (_ :: _ :: _ :: [_]). cbn.
      split; [done|]. split; [by rewrite <- !app_assoc|].
      intros c. rewrite !elem_of_cons, elem_of_nil. no_cookie_event.
    + eexists (_ :: _ :: [_]). cbn.
      split; [done|]. split; [done|].
      intros c. rewrite !elem_of_cons, elem_of_nil. no_cookie_event.
  - exists []. cbn. rewrite app_nil_r. split; [done|]. split; [done|].
    intros c. apply not_elem_of_nil.
Qed.

(** ** Cutting a string: [split] by its pieces *)

Lemma split_nonempty sep s : ∃ piece pieces, JS.split sep s = piece :: pieces.
Proof.
  destruct s as [|c r]; simpl; [by eauto|].
  destruct (Ascii.eqb c sep); [by eauto|].
  destruct (JS.split sep r); eauto.
Qed.

Lemma split_first sep s : JS.split sep s !! 0%nat = Some (up_to sep s).
Proof.
  induction s as [|c r IH]; simpl; [done|].
  destruct (Ascii.eqb c sep); [done|].
  destruct (JS.split sep r) as [|piece pieces]; [done|].
  simpl in *. congruence.
Qed.

Lemma split_second sep s :
  JS.split sep s !! 1%nat = up_to sep <$> after_first sep s.
Proof.
  induction s as [|c r IH]; simpl; [done|].
  destruct (Ascii.eqb c sep).
  - simpl. apply split_first.
  - destruct (split_nonempty sep r) as (piece & pieces & E).
    rewrite E in *. exact IH.
Qed.

(** ** The preflight handler and the CORS headers *)

(** C8: for every request, whoever sends it and whatever session there is,
    [OPTIONS] returns status 200 with no body and the CORS headers of the
    resolver, and leaves the store as it found it: no cookie written, no
    row inserted, no outbound call, nothing awaited. *)
Theorem OPTIONS_preflight w net env req st :
  exec w net (OPTIONS env req) st =
  Finished st {| status := 200; body := None;
                 response_headers := spec_cors_headers env req |}.
Proof. apply exec_OPTIONS. Qed.

(** C3: the [Access-Control-Allow-Origin] value the handler computes from
    its [origin] and the request origin is the resolver of the
    specification: [origin] when present and in the allow-list, else the
    request origin when in the allow-list, else the literal [null]. *)
Theorem cors_resolver_refines_spec w net env req st :
  ∃ r, exec w net (OPTIONS env req) st = Finished st r
     ∧ header "Access-Control-Allow-Origin" r
       = Some (spec_cors_origin (allowedOrigins env)
                 (JS.or_null (searchParams_get "origin" (searchParams req)))
                 (nextUrl_origin req)).
Proof. eexists. split; [apply exec_OPTIONS | reflexivity]. Qed.

Lemma GET_response_headers w net env req st st' r :
  exec w net (GET env req) st = Finished st' r →
  response_headers r = spec_cors_headers env req
  ∧ (status r = 401%Z ∨ status r = 200%Z).
Proof.
  rewrite exec_GET. intros H.
  destruct (resolved w req st);
    [destruct (hosted_production env); [destruct net|]|];
    inversion H; subst; cbn; auto.
Qed.

(** C7: the three response sites give the same headers.  For every
    request there is one header list, fixed by the environment, the
    [origin] parameter and the request origin alone, that the preflight
    response, the 401 response and the 200 response all carry; each site
    is reached. *)
Theorem cors_sites_agree env req :
  ∃ hs,
    hs = [ ("Access-Control-Allow-Origin",
             spec_cors_origin (allowedOrigins env) (origin_of req)
               (nextUrl_origin req));
           ("Access-Control-Allow-Credentials", "true");
           ("Access-Control-Allow-Methods", "GET, OPTIONS");
           ("Access-Control-Allow-Headers",
             "Authorization, sentry-trace, baggage") ]
    ∧ (∀ w net st, ∃ r,
         exec w net (OPTIONS env req) st = Finished st r
         ∧ status r = 200%Z ∧ response_headers r = hs)
    ∧ (∀ w net st, resolved w req st = None →
         ∃ st' r, exec w net (GET env req) st = Finished st' r
                ∧ status r = 401%Z ∧ response_headers r = hs)
    ∧ (∀ w o st u, resolved w req st = Some u →
         ∃ st' r, exec w (Some o) (GET env req) st = Finished st' r
                ∧ status r = 200%Z ∧ response_headers r = hs)
    ∧ (∀ w net st st' r, exec w net (GET env req) st = Finished st' r →
         response_headers r = hs).
Proof.
  eexists. split; [reflexivity|]. repeat split.
  - intros w net st. eexists. split; [apply exec_OPTIONS|]. done.
  - intros w net st Hu. rewrite exec_GET, Hu. by do 2 eexists.
  - intros w o st u Hu. rewrite exec_GET, Hu.
    destruct (hosted_production env); by do 2 eexists.
  - intros w net st st' r H.
    by destruct (GET_response_headers _ _ _ _ _ _ _ H).
Qed.

Lemma cors_sites_agree_witness :
  ∃ hs,
    response_headers <$>
      response_of (exec Sample.world None
                     (OPTIONS Sample.hosted
                        (Sample.request None (Some "tauri://localhost")))
                     Sample.empty) = Some hs
    ∧ response_headers <$>
        response_of (exec Sample.world None
                       (GET Sample.hosted
                          (Sample.request None (Some "tauri://localhost")))
                       Sample.empty) = Some hs
    ∧ response_headers <$>
        response_of (exec Sample.world (Some Sample.dub_down)
                       (GET Sample.hosted
                          (Sample.request (Some "Bearer abc123")
                             (Some "tauri://localhost")))
                       Sample.empty) = Some hs.
Proof.
  destruct (cors_sites_agree Sample.hosted
              (Sample.request None (Some "tauri://localhost")))
    as (hs & Ehs & Hopt & H401 & _ & _).
  destruct (cors_sites_agree Sample.hosted
              (Sample.request (Some "Bearer abc123")
                 (Some "tauri://localhost")))
    as (hs' & Ehs' & _ & _ & H200 & _).
  exists hs.
  destruct (Hopt Sample.world None Sample.empty) as (r0 & E0 & _ & H0).
  destruct (H401 Sample.world None Sample.empty) as (st1 & r1 & E1 & _ & H1);
    [vm_compute; reflexivity|].
  destruct (H200 Sample.world Sample.dub_down Sample.empty
              {| userId := "u1" |}) as (st2 & r2 & E2 & _ & H2);
    [vm_compute; reflexivity|].
  rewrite E0, E1, E2. cbn. rewrite H0, H1, H2.
  repeat split. f_equal. rewrite Ehs, Ehs'. reflexivity.
Defined.

(** C9: on every response path the [Access-Control-Allow-Origin] value is
    an element of the allow-list or the literal [null].  An [origin]
    parameter outside the allow-list leaves no mark on it: the value is
    the one the request origin alone gives, and it can equal the parameter
    only when the parameter is itself the literal [null]. *)
Theorem allow_origin_in_list_or_null w net env req st r :
  (exec w net (OPTIONS env req) st = Finished st r
   ∨ ∃ st', exec w net (GET env req) st = Finished st' r) →
  ∃ h, header "Access-Control-Allow-Origin" r = Some h
     ∧ (Some h ∈ allowedOrigins env ∨ h = "null")
     ∧ ∀ o, searchParams_get "origin" (searchParams req) = Some o →
            Some o ∉ allowedOrigins env →
            h = spec_cors_origin (allowedOrigins env) None (nextUrl_origin req)
            ∧ (h = o → o = "null").
Proof.
  intros H.
  assert (Hr : response_headers r = spec_cors_headers env req).
  { destruct H as [H | [st' H]].
    - rewrite exec_OPTIONS in H. by inversion H.
    - by destruct (GET_response_headers _ _ _ _ _ _ _ H). }
  exists (spec_cors_origin (allowedOrigins env) (origin_of req)
            (nextUrl_origin req)).
  split; [unfold header; rewrite Hr; reflexivity|].
  assert (Hin : ∀ origin,
    Some (spec_cors_origin (allowedOrigins env) origin (nextUrl_origin req))
      ∈ allowedOrigins env
    ∨ spec_cors_origin (allowedOrigins env) origin (nextUrl_origin req)
      = "null").
  { intros origin. unfold spec_cors_origin.
    destruct origin as [o|]; repeat case_bool_decide; auto. }
  split; [apply Hin|].
  intros o Ho Hnot.
  assert (E : spec_cors_origin (allowedOrigins env) (origin_of req)
                (nextUrl_origin req)
              = spec_cors_origin (allowedOrigins env) None
                  (nextUrl_origin req)).
  { unfold origin_of. rewrite Ho. unfold JS.or_null.
    destruct (JS.truthy (Some o)); [|done].
    unfold spec_cors_origin. by rewrite bool_decide_eq_false_2. }
  split; [exact E|].
  intros Eo. destruct (Hin (origin_of req)) as [Hl | Hn].
  - rewrite Eo in Hl. contradiction.
  - congruence.
Qed.

Lemma allow_origin_in_list_or_null_witness :
  let req := Sample.request None (Some "https://evil.example") in
  let r := {| status := 200; body := None;
              response_headers := spec_cors_headers Sample.hosted req |} in
  exec Sample.world None (OPTIONS Sample.hosted req) Sample.empty
  = Finished Sample.empty r
  ∧ ∃ h, header "Access-Control-Allow-Origin" r = Some h
       ∧ (Some h ∈ allowedOrigins Sample.hosted ∨ h = "null")
       ∧ h ≠ "https://evil.example".
Proof.
  intros req r.
  assert (E : exec Sample.world None (OPTIONS Sample.hosted req) Sample.empty
              = Finished Sample.empty r) by (vm_compute; reflexivity).
  split; [exact E|].
  destruct (allow_origin_in_list_or_null Sample.world None Sample.hosted
              req Sample.empty r (or_introl E)) as (h & Hh & Hin & Hecho).
  exists h. split; [exact Hh|]. split; [exact Hin|].
  intros Eh. destruct (Hecho "https://evil.example" eq_refl) as [_ Hnull].
  - unfold allowedOrigins. cbn [NEXT_PUBLIC_URL Sample.hosted].
    rewrite !elem_of_cons, elem_of_nil.
    intros H; repeat (destruct H as [H|H]; [discriminate H|]); exact H.
  - discriminate (Hnull Eh).
Defined.

(** ** The create handler *)

(** C2: when no user resolves from the session, [GET] returns status 401
    with the JSON body of the object whose one property [error] is [true],
    and the [videos] table is as it was; so a row is inserted only in a run
    in which a user resolves. *)
Theorem GET_unauthorized w net env req st :
  (resolved w req st = None →
   ∃ st' r, exec w net (GET env req) st = Finished st' r
          ∧ status r = 401%Z
          ∧ body r = JS.stringify (JS.Obj [("error", JS.Bool true)])
          ∧ body r = Some ("{" +:+ String JS.dquote "error"
                             +:+ String JS.dquote ":true}")
          ∧ videos st' = videos st)
  ∧ (videos (final_store (exec w net (GET env req) st)) ≠ videos st →
     is_Some (resolved w req st)).
Proof.
  rewrite exec_GET. split.
  - intros ->. do 2 eexists. repeat split; reflexivity.
  - destruct (resolved w req st) as [u|]; [by eauto|].
    cbn. congruence.
Qed.

Lemma GET_unauthorized_witness :
  ∃ st' r,
    exec Sample.world None
      (GET Sample.hosted (Sample.request (Some "Bearer stale") None))
      Sample.empty = Finished st' r
    ∧ status r = 401%Z ∧ videos st' = [].
Proof.
  destruct (GET_unauthorized Sample.world None Sample.hosted
              (Sample.request (Some "Bearer stale") None) Sample.empty)
    as [H _].
  destruct H as (st' & r & E & Hs & _ & _ & Hv); [vm_compute; reflexivity|].
  exists st', r. repeat split; assumption.
Defined.

(** C1: when a user resolves from the session, [GET] inserts exactly one
    row, whose [ownerId] is the user's [userId], whose [id] is the
    generated identifier and whose [name] is [My Cap Recording - ] followed
    by the day of the month, the long month name and the year of the
    current date; it returns status 200 with the JSON body of an object
    whose [id] is that identifier and whose [user_id] is that [userId].
    This holds whatever the awaited short-link call settles to. *)
Theorem GET_creates_video w o env req st u :
  resolved w req st = Some u →
  ∃ st' r row obj,
    exec w (Some o) (GET env req) st = Finished st' r
    ∧ videos st' = videos st ++ [row]
    ∧ ownerId row = userId u
    ∧ id row = nanoId w
    ∧ video_name row
      = "My Cap Recording - " +:+ pretty (getDate (now w)) +:+ " "
          +:+ month_long w (now w) +:+ " "
          +:+ pretty (getFullYear (now w))
    ∧ status r = 200%Z
    ∧ body r = JS.stringify obj
    ∧ JS.prop "id" obj = JS.Str (id row)
    ∧ JS.prop "user_id" obj = JS.Str (userId u).
Proof.
  intros Hu. rewrite exec_GET, Hu.
  exists (final_store (exec w (Some o) (GET env req) st)),
    (created w env req u), (new_video w env u), (created_body w env u).
  rewrite exec_GET, Hu.
  destruct (hosted_production env); repeat split; reflexivity.
Qed.

Lemma GET_creates_video_witness :
  ∃ st' r,
    exec Sample.world (Some Sample.dub_ok)
      (GET Sample.hosted (Sample.request (Some "Bearer abc123") None))
      Sample.empty = Finished st' r
    ∧ videos st'
      = [ {| id := "v1d30";
             video_name := "My Cap Recording - 2 November 2026";
             ownerId := "u1";
             awsRegion := Some "us-east-1";
             awsBucket := Some "b1" |} ]
    ∧ status r = 200%Z.
Proof.
  destruct (GET_creates_video Sample.world Sample.dub_ok Sample.hosted
              (Sample.request (Some "Bearer abc123") None) Sample.empty
              {| userId := "u1" |})
    as (st' & r & row & obj & E & Hv & _ & _ & _ & Hs & _);
    [vm_compute; reflexivity|].
  exists st', r. split; [exact E|]. split; [|exact Hs].
  revert E. vm_compute. intros E. inversion E. reflexivity.
Defined.

Lemma fetches_lookup_events req st : fetches (lookup_events req st) = [].
Proof.
  unfold lookup_events, bridge_events.
  by destruct (bridged_token req).
Qed.

Lemma hosted_production_flags env :
  hosted_production env = true
  ↔ JS.truthy (NEXT_PUBLIC_IS_CAP env) = true
    ∧ NEXT_PUBLIC_ENVIRONMENT env = Some "production".
Proof.
  unfold hosted_production.
  rewrite andb_true_iff, bool_decide_eq_true. reflexivity.
Qed.

(** C5: in a run of [GET] in which a user resolves, the short-link call is
    made exactly when [NEXT_PUBLIC_IS_CAP] is truthy and
    [NEXT_PUBLIC_ENVIRONMENT] is [production], and it is then the one
    [POST] to the links endpoint; whatever the call settles to, the
    response is the same. *)
Theorem dub_call_only_when_hosted w env req st u :
  resolved w req st = Some u →
  ∃ r, status r = 200%Z
     ∧ ∀ o, ∃ st',
         exec w (Some o) (GET env req) st = Finished st' r
         ∧ fetches (trace st')
           = fetches (trace st)
             ++ (if hosted_production env
                 then [(dub_url, dub_init w env)] else [])
         ∧ (fetches (trace st') ≠ fetches (trace st)
            ↔ JS.truthy (NEXT_PUBLIC_IS_CAP env) = true
              ∧ NEXT_PUBLIC_ENVIRONMENT env = Some "production").
Proof.
  intros Hu. exists (created w env req u). split; [reflexivity|].
  intros o. rewrite exec_GET, Hu.
  pose proof (hosted_production_flags env) as Hflags.
  destruct (hosted_production env); eexists; (split; [reflexivity|]).
  - assert (E : fetches
                  (trace (with_events
                            [EvFetch dub_url (dub_init w env); dub_logged o]
                            (at_insert w env req u st)))
                = fetches (trace st) ++ [(dub_url, dub_init w env)]).
    { cbn [with_events at_insert trace]. unfold fetches.
      rewrite !omap_app. fold (fetches (lookup_events req st)).
      rewrite fetches_lookup_events.
      destruct o as [[[v|err]]|err]; cbn; by rewrite ?app_nil_r. }
    split; [exact E|]. rewrite E. split; [intros _; by apply Hflags|].
    intros _ H.
    apply (f_equal length) in H. rewrite length_app in H. cbn in H. lia.
  - assert (E : fetches (trace (at_insert w env req u st))
                = fetches (trace st) ++ []).
    { cbn [at_insert trace]. unfold fetches.
      rewrite !omap_app. fold (fetches (lookup_events req st)).
      rewrite fetches_lookup_events. cbn. by rewrite ?app_nil_r. }
    split; [exact E|]. rewrite E, app_nil_r. split; [done|].
    intros H. apply Hflags in H. discriminate H.
Qed.

Lemma dub_call_only_when_hosted_witness :
  ∃ r st1 st2,
    exec Sample.world (Some Sample.dub_ok)
      (GET Sample.hosted (Sample.request (Some "Bearer abc123") None))
      Sample.empty = Finished st1 r
    ∧ exec Sample.world (Some Sample.dub_down)
        (GET Sample.hosted (Sample.request (Some "Bearer abc123") None))
        Sample.empty = Finished st2 r
    ∧ length (fetches (trace st1)) = 1%nat.
Proof.
  destruct (dub_call_only_when_hosted Sample.world Sample.hosted
              (Sample.request (Some "Bearer abc123") None) Sample.empty
              {| userId := "u1" |}) as (r & _ & H);
    [vm_compute; reflexivity|].
  destruct (H Sample.dub_ok) as (st1 & E1 & F1 & _).
  destruct (H Sample.dub_down) as (st2 & E2 & _).
  exists r, st1, st2. repeat split; [exact E1 | exact E2 |].
  rewrite F1. reflexivity.
Defined.

(** C4 (as amended): the short-link call is awaited.  In a hosted
    production deployment, when a user resolves, [GET] run while the call
    has not settled is suspended on that call and has no response; once
    the call settles the run finishes with the 200 response, the same for
    every settlement, after putting on the console the decoded body of a
    fulfilled call or, on the error console, the reason of a rejected call
    or of a rejected decoding, which is then dropped. *)
Theorem dub_call_is_awaited w env req st u :
  resolved w req st = Some u →
  hosted_production env = true →
  ∃ st1 r,
    exec w None (GET env req) st = Pending st1 dub_url (dub_init w env)
    ∧ status r = 200%Z
    ∧ (∀ v, exec w (Some (JS.Fulfilled {| json := JS.Fulfilled v |}))
              (GET env req) st
            = Finished (record (EvConsoleLog (LogValue v)) st1) r)
    ∧ (∀ err, exec w (Some (JS.Fulfilled {| json := JS.Rejected err |}))
                (GET env req) st
              = Finished (record (EvConsoleError err) st1) r)
    ∧ (∀ err, exec w (Some (JS.Rejected err)) (GET env req) st
              = Finished (record (EvConsoleError err) st1) r).
Proof.
  intros Hu Hp.
  exists (with_events [EvFetch dub_url (dub_init w env)]
            (at_insert w env req u st)), (created w env req u).
  rewrite !exec_GET, Hu, Hp.
  split; [reflexivity|]. split; [reflexivity|].
  repeat split; intros; rewrite exec_GET, Hu, Hp;
    unfold record, with_events; cbn; by rewrite <- !app_assoc.
Qed.

Lemma dub_call_is_awaited_witness :
  ∃ st1 r,
    exec Sample.world None
      (GET Sample.hosted (Sample.request (Some "Bearer abc123") None))
      Sample.empty
    = Pending st1 dub_url (dub_init Sample.world Sample.hosted)
    ∧ exec Sample.world (Some Sample.dub_down)
        (GET Sample.hosted (Sample.request (Some "Bearer abc123") None))
        Sample.empty
      = Finished (record (EvConsoleError "TypeError: fetch failed") st1) r.
Proof.
  destruct (dub_call_is_awaited Sample.world Sample.hosted
              (Sample.request (Some "Bearer abc123") None) Sample.empty
              {| userId := "u1" |})
    as (st1 & r & E & _ & _ & _ & Hrej);
    [vm_compute; reflexivity | vm_compute; reflexivity |].
  exists st1, r. split; [exact E | apply Hrej].
Defined.

(** C4 (as stated) fails: with a resolved user in a hosted production
    deployment, [GET] run while the short-link call has not settled returns
    no response. *)
Lemma dub_call_blocks_the_response :
  resolved Sample.world (Sample.request (Some "Bearer abc123") None)
    Sample.empty = Some {| userId := "u1" |}
  ∧ response_of
      (exec Sample.world None
         (GET Sample.hosted (Sample.request (Some "Bearer abc123") None))
         Sample.empty) = None
  ∧ ¬ ∃ st' r,
        exec Sample.world None
          (GET Sample.hosted (Sample.request (Some "Bearer abc123") None))
          Sample.empty = Finished st' r.
Proof.
  split; [vm_compute; reflexivity|].
  split; [vm_compute; reflexivity|].
  intros (st' & r & H). revert H. rewrite exec_GET.
  vm_compute. discriminate.
Qed.

(** ** The token bridge *)

Lemma GET_status_iff_resolved w net env req st r :
  response_of (exec w net (GET env req) st) = Some r →
  (status r = 401%Z ↔ resolved w req st = None).
Proof.
  rewrite exec_GET. destruct (resolved w req st) as [u|].
  - destruct (hosted_production env); [destruct net|]; cbn;
      intros [= <-]; cbn; split; discriminate.
  - cbn. intros [= <-]. done.
Qed.

(** What a run of [GET] does with the cookie store, by the piece of the
    header it bridges. *)
Lemma GET_bridge w net env req st :
  match bridged_token req with
  | Some t =>
      cookieJar (final_store (exec w net (GET env req) st))
      = <["next-auth.session-token" := session_cookie t]> (cookieJar st)
      ∧ ∃ evs, trace (final_store (exec w net (GET env req) st))
               = trace st
                 ++ EvCookiesSet (session_cookie t) :: EvGetCurrentUser :: evs
  | None =>
      cookieJar (final_store (exec w net (GET env req) st)) = cookieJar st
      ∧ ∃ evs, trace (final_store (exec w net (GET env req) st))
               = trace st ++ EvGetCurrentUser :: evs
             ∧ ∀ c, EvCookiesSet c ∉ evs
  end.
Proof.
  destruct (GET_final_store w net env req st) as (evs & Hjar & Htr & Hno).
  rewrite Hjar, Htr. unfold jar_at_lookup, lookup_events, bridge_events.
  destruct (bridged_token req) as [t|]; (split; [reflexivity|]).
  - eexists. cbn. reflexivity.
  - eexists. split; [cbn; reflexivity|].
    intros c. rewrite !elem_of_cons.
    intros [H|[H|H]]; try discriminate H. by apply (Hno c).
Qed.

(** C6 (as amended): [GET] cuts the [authorization] header at each single
    space and takes the second piece; when there is such a piece and it is
    not empty, the first thing [GET] does is to set it as the cookie
    [next-auth.session-token] with path [/], [SameSite=None], [Secure] and
    [HttpOnly], and the session is then resolved against the cookie store
    that holds it; when the header is missing, has no space, or has an
    empty second piece, no cookie is written.  The first piece is not
    looked at. *)
Theorem GET_bridges_second_piece w net env req st :
  let token :=
    match headers req !! "authorization" with
    | Some h => JS.split " " h !! 1%nat
    | None => None
    end in
  let run := exec w net (GET env req) st in
  match token with
  | Some (String c t') =>
      let cookie :=
        {| name := "next-auth.session-token"; value := String c t';
           path := "/"; sameSite := SameSiteNone; secure := true;
           httpOnly := true |} in
      cookieJar (final_store run)
      = <["next-auth.session-token" := cookie]> (cookieJar st)
      ∧ (∃ evs, trace (final_store run)
                = trace st ++ EvCookiesSet cookie :: EvGetCurrentUser :: evs)
      ∧ ∀ r, response_of run = Some r →
             (status r = 401%Z
              ↔ getCurrentUser w
                  (<["next-auth.session-token" := cookie]> (cookieJar st))
                = None)
  | _ =>
      cookieJar (final_store run) = cookieJar st
      ∧ (∃ evs, trace (final_store run)
                = trace st ++ EvGetCurrentUser :: evs
              ∧ ∀ c, EvCookiesSet c ∉ evs)
      ∧ ∀ r, response_of run = Some r →
             (status r = 401%Z ↔ getCurrentUser w (cookieJar st) = None)
  end.
Proof.
  intros token run.
  pose proof (GET_bridge w net env req st) as Hb.
  pose proof (GET_status_iff_resolved w net env req st) as Hs.
  unfold resolved, jar_at_lookup in Hs.
  assert (Ht : bridged_token req = JS.narrow token).
  { unfold bridged_token, token.
    by destruct (headers req !! "authorization"). }
  rewrite Ht in Hb, Hs. fold run in Hb, Hs.
  destruct token as [[|c t']|]; cbn in Hb, Hs;
    destruct Hb as [Hjar Htr]; (split; [exact Hjar|]);
    (split; [exact Htr|]); exact Hs.
Qed.

Lemma GET_bridges_second_piece_witness :
  cookieJar
    (final_store
       (exec Sample.world None
          (GET Sample.self_hosted
             (Sample.request (Some "Bearer abc123") None))
          Sample.empty))
  !! "next-auth.session-token"
  = Some {| name := "next-auth.session-token"; value := "abc123";
            path := "/"; sameSite := SameSiteNone; secure := true;
            httpOnly := true |}
  ∧ status <$>
      response_of
        (exec Sample.world None
           (GET Sample.self_hosted
              (Sample.request (Some "Bearer abc123") None))
           Sample.empty) = Some 200%Z.
Proof.
  pose proof (GET_bridges_second_piece Sample.world None Sample.self_hosted
                (Sample.request (Some "Bearer abc123") None) Sample.empty)
    as H.
  cbv zeta in H.
  change (match headers (Sample.request (Some "Bearer abc123") None)
                  !! "authorization" with
          | Some h => JS.split " " h !! 1%nat
          | None => None
          end) with (Some "abc123") in H.
  cbv iota beta in H.
  destruct H as (Hjar & _ & Hs).
  split.
  - rewrite Hjar. apply lookup_insert_eq.
  - vm_compute. reflexivity.
Defined.

(** C6 (as stated) fails both ways: a header whose scheme is not [Bearer]
    has no bearer token, yet its second piece is written as the cookie;
    and a header with two spaces after [Bearer] has a bearer token, yet no
    cookie is written. *)
Lemma bearer_token_is_not_what_is_bridged :
  (spec_bearer_token (Some "Basic dXNlcjpwYXNz") = None
   ∧ cookieJar
       (final_store
          (exec Sample.world None
             (GET Sample.hosted
                (Sample.request (Some "Basic dXNlcjpwYXNz") None))
             Sample.empty))
     !! "next-auth.session-token"
     = Some (session_cookie "dXNlcjpwYXNz"))
  ∧ (spec_bearer_token (Some "Bearer  abc123") = Some "abc123"
     ∧ cookieJar
         (final_store
            (exec Sample.world None
               (GET Sample.hosted
                  (Sample.request (Some "Bearer  abc123") None))
               Sample.empty))
       !! "next-auth.session-token" = None).
Proof. repeat split; vm_compute; reflexivity. Qed.

(** C10 (as amended): the scheme is never checked.  When the
    [authorization] header has a space, the text between its first space
    and the next one, if it is not empty, is set as the value of the
    session cookie, whatever the first word is; if that text is empty no
    cookie is written.  When the header has no space no cookie is written.
    In every case the next thing [GET] does is to resolve the session. *)
Theorem bridge_ignores_scheme w net env req st h :
  headers req !! "authorization" = Some h →
  let run := exec w net (GET env req) st in
  match after_first " " h with
  | Some rest =>
      match up_to " " rest with
      | String c t' =>
          cookieJar (final_store run)
          = <["next-auth.session-token" := session_cookie (String c t')]>
              (cookieJar st)
          ∧ ∃ evs, trace (final_store run)
                   = trace st
                     ++ EvCookiesSet (session_cookie (String c t'))
                        :: EvGetCurrentUser :: evs
      | EmptyString =>
          cookieJar (final_store run) = cookieJar st
          ∧ ∃ evs, trace (final_store run)
                   = trace st ++ EvGetCurrentUser :: evs
                 ∧ ∀ c, EvCookiesSet c ∉ evs
      end
  | None =>
      cookieJar (final_store run) = cookieJar st
      ∧ ∃ evs, trace (final_store run) = trace st ++ EvGetCurrentUser :: evs
             ∧ ∀ c, EvCookiesSet c ∉ evs
  end.
Proof.
  intros Hh run.
  pose proof (GET_bridge w net env req st) as Hb. fold run in Hb.
  unfold bridged_token in Hb. rewrite Hh, split_second in Hb.
  destruct (after_first " " h) as [rest|]; cbn in Hb; [|exact Hb].
  destruct (up_to " " rest) as [|c t']; exact Hb.
Qed.

Lemma bridge_ignores_scheme_witness :
  cookieJar
    (final_store
       (exec Sample.world None
          (GET Sample.hosted (Sample.request (Some "Token abc123") None))
          Sample.empty))
  = {[ "next-auth.session-token" := session_cookie "abc123" ]}.
Proof.
  pose proof (bridge_ignores_scheme Sample.world None Sample.hosted
                (Sample.request (Some "Token abc123") None) Sample.empty
                "Token abc123" eq_refl) as H.
  cbv zeta in H.
  change (after_first " " "Token abc123") with (Some "abc123") in H.
  change (up_to " " "abc123") with "abc123" in H.
  cbv iota beta in H.
  destruct H as [Hjar _]. exact Hjar.
Defined.

(** C10 (as stated) fails: in [Bearer  abc] the header has a space and
    the text between its first space and the next one is empty; the claim
    has the empty string set as the cookie value, and [GET] writes no
    cookie. *)
Lemma empty_piece_writes_no_cookie :
  let req := Sample.request (Some "Bearer  abc") None in
  let run := exec Sample.world None (GET Sample.hosted req) Sample.empty in
  after_first " " "Bearer  abc" = Some " abc"
  ∧ up_to " " " abc" = EmptyString
  ∧ cookieJar (final_store run) !! "next-auth.session-token" = None
  ∧ cookieJar (final_store run) !! "next-auth.session-token"
    ≠ Some (session_cookie EmptyString)
  ∧ ∀ c, EvCookiesSet c ∉ trace (final_store run).
Proof.
  intros req run.
  assert (E : cookieJar (final_store run) !! "next-auth.session-token" = None)
    by (vm_compute; reflexivity).
  split; [reflexivity|]. split; [reflexivity|]. split; [exact E|].
  split; [rewrite E; discriminate|].
  intros c. subst run. rewrite exec_GET.
  set (tr := trace _). vm_compute in tr. subst tr.
  rewrite !elem_of_cons, elem_of_nil. no_cookie_event.
Qed.

(** ** Further properties of the route *)

(** *** Strings *)

Lemma append_nil (b : string) : EmptyString +:+ b = b.
Proof. reflexivity. Qed.

Lemma append_cons x (a b : string) : String x a +:+ b = String x (a +:+ b).
Proof. reflexivity. Qed.

Lemma append_assoc (a b c : string) : (a +:+ b) +:+ c = a +:+ (b +:+ c).
Proof.
  induction a as [|x a IH]; [done|].
  rewrite !append_cons. f_equal. exact IH.
Qed.

Lemma up_to_no_sep sep s : has_char sep (up_to sep s) = false.
Proof.
  induction s as [|c r IH]; simpl; [done|].
  destruct (Ascii.eqb c sep) eqn:E; simpl; [done|]. by rewrite E.
Qed.

Lemma up_to_id sep s : has_char sep s = false → up_to sep s = s.
Proof.
  induction s as [|c r IH]; simpl; [done|].
  intros [E Hr]%orb_false_iff. rewrite E. by rewrite IH.
Qed.

Lemma up_to_app sep s rest :
  has_char sep s = false →
  up_to sep (s +:+ String sep rest) = s.
Proof.
  induction s as [|c r IH]; rewrite ?append_nil, ?append_cons; simpl.
  - by rewrite Ascii.eqb_refl.
  - intros [E Hr]%orb_false_iff. rewrite E. by rewrite IH.
Qed.

Lemma after_first_app sep s rest :
  has_char sep s = false →
  after_first sep (s +:+ String sep rest) = Some rest.
Proof.
  induction s as [|c r IH]; rewrite ?append_nil, ?append_cons; simpl.
  - by rewrite Ascii.eqb_refl.
  - intros [E Hr]%orb_false_iff. rewrite E. by apply IH.
Qed.

(** The pieces of [s.split(sep)] hold no separator, and joined by the
    separator they give [s] back. *)
Theorem split_join sep s :
  JS.join (String sep EmptyString) (JS.split sep s) = s
  ∧ ∀ piece, piece ∈ JS.split sep s → has_char sep piece = false.
Proof.
  induction s as [|c r [IHj IHp]]; simpl.
  - split; [done|]. intros piece ->%list_elem_of_singleton. done.
  - destruct (split_nonempty sep r) as (p & ps & E). rewrite E in *.
    destruct (Ascii.eqb c sep) eqn:Ec.
    + apply Ascii.eqb_eq in Ec as ->. split.
      * change (JS.join (String sep EmptyString) (EmptyString :: p :: ps))
          with (String sep (JS.join (String sep EmptyString) (p :: ps))).
        by rewrite IHj.
      * intros piece [-> | H]%elem_of_cons; [done | by apply IHp].
    + split.
      * destruct ps as [|q qs].
        -- cbn in IHj |- *. by rewrite IHj.
        -- change (JS.join (String sep EmptyString) (String c p :: q :: qs))
             with (String c (JS.join (String sep EmptyString) (p :: q :: qs))).
           by rewrite IHj.
      * intros piece [-> | H]%elem_of_cons.
        -- simpl. rewrite Ec. apply IHp. left.
        -- apply IHp. by right.
Qed.

Lemma split_join_witness :
  JS.join " " (JS.split " " "Bearer abc123") = "Bearer abc123"
  ∧ has_char " " "abc123" = false.
Proof.
  destruct (split_join " " "Bearer abc123") as [Hj Hp].
  split; [exact Hj|]. apply Hp.
  change (JS.split " " "Bearer abc123") with ["Bearer"; "abc123"].
  apply elem_of_cons. right. apply elem_of_cons. by left.
Defined.

(** *** What [GET] reads of the request *)

Lemma bridged_token_with_authorization h req :
  bridged_token (with_authorization h req)
  = JS.narrow (up_to " " <$> after_first " " h).
Proof.
  unfold bridged_token, with_authorization. cbn [headers].
  by rewrite lookup_insert_eq, split_second.
Qed.

Lemma GET_depends w net env req1 req2 st :
  bridged_token req1 = bridged_token req2 →
  searchParams req1 = searchParams req2 →
  nextUrl_origin req1 = nextUrl_origin req2 →
  exec w net (GET env req1) st = exec w net (GET env req2) st.
Proof.
  intros Ht Hp Ho. rewrite !exec_GET.
  unfold resolved, at_lookup, at_insert, lookup_events, bridge_events,
    jar_at_lookup, unauthorized, created, spec_cors_headers, origin_of.
  by rewrite Ht, Hp, Ho.
Qed.

(** Of the [authorization] header [GET] uses the text between the first
    and the second space and nothing else: whatever stands before the
    first space and after the second, the run is the run for [Bearer]
    followed by that text. *)
Theorem GET_reads_only_second_piece w net env req st scheme t rest :
  has_char " " scheme = false →
  has_char " " t = false →
  exec w net
    (GET env (with_authorization (scheme +:+ " " +:+ t +:+ " " +:+ rest) req))
    st
  = exec w net (GET env (with_authorization ("Bearer " +:+ t) req)) st.
Proof.
  intros Hs Ht. apply GET_depends; [|reflexivity..].
  rewrite !bridged_token_with_authorization.
  change (" " +:+ t +:+ " " +:+ rest) with (String " " (t +:+ String " " rest)).
  rewrite (after_first_app " " scheme _ Hs).
  change ("Bearer " +:+ t) with ("Bearer" +:+ String " " t).
  rewrite (after_first_app " " "Bearer" t eq_refl).
  cbn [fmap option_fmap option_map].
  by rewrite (up_to_app " " t rest Ht), (up_to_id " " t Ht).
Qed.

Lemma GET_reads_only_second_piece_witness :
  exec Sample.world None
    (GET Sample.self_hosted
       (with_authorization "Token abc123 and more"
          (Sample.request None None)))
    Sample.empty
  = exec Sample.world None
      (GET Sample.self_hosted
         (with_authorization "Bearer abc123" (Sample.request None None)))
      Sample.empty.
Proof.
  exact (GET_reads_only_second_piece Sample.world None Sample.self_hosted
           (Sample.request None None) Sample.empty
           "Token" "abc123" "and more" eq_refl eq_refl).
Defined.

(** A cookie that a run of [GET] sets is the session cookie, and its
    value is not empty and holds no space. *)
Theorem bridged_cookie_value w net env req st evs c :
  trace (final_store (exec w net (GET env req) st)) = trace st ++ evs →
  EvCookiesSet c ∈ evs →
  c = {| name := "next-auth.session-token"; value := value c; path := "/";
         sameSite := SameSiteNone; secure := true; httpOnly := true |}
  ∧ value c ≠ EmptyString
  ∧ has_char " " (value c) = false.
Proof.
  intros Htr Hin.
  destruct (GET_final_store w net env req st) as (evs' & _ & Htr' & Hno).
  rewrite Htr' in Htr. apply app_inv_head in Htr. subst evs.
  apply elem_of_app in Hin as [Hin | Hin]; [|by apply Hno in Hin].
  unfold lookup_events, bridge_events in Hin.
  apply elem_of_app in Hin as [Hin | Hin].
  - unfold bridged_token in Hin.
    destruct (headers req !! "authorization") as [h|];
      [|by apply elem_of_nil in Hin].
    rewrite split_second in Hin.
    destruct (after_first " " h) as [rest|]; cbn in Hin;
      [|by apply elem_of_nil in Hin].
    pose proof (up_to_no_sep " " rest) as Hsp.
    destruct (up_to " " rest) as [|x t]; cbn in Hin;
      [by apply elem_of_nil in Hin|].
    apply list_elem_of_singleton in Hin. injection Hin as ->.
    split; [reflexivity|]. split; [discriminate | exact Hsp].
  - exfalso. revert Hin. rewrite !elem_of_cons, elem_of_nil.
    no_cookie_event.
Qed.

Lemma bridged_cookie_value_witness :
  value (session_cookie "abc123") ≠ EmptyString
  ∧ has_char " " (value (session_cookie "abc123")) = false.
Proof.
  destruct (bridged_cookie_value Sample.world None Sample.self_hosted
              (Sample.request (Some "Bearer abc123") None) Sample.empty
              [ EvCookiesSet (session_cookie "abc123"); EvGetCurrentUser;
                EvCookiesGetAll;
                EvConsoleLog
                  (LogCookies "cookies:" [session_cookie "abc123"]);
                EvNanoId; EvNewDate;
                EvDbInsert (new_video Sample.world Sample.self_hosted
                              {| userId := "u1" |}) ]
              (session_cookie "abc123"))
    as (_ & Hne & Hsp).
  - vm_compute. reflexivity.
  - apply elem_of_cons. left. reflexivity.
  - split; assumption.
Defined.

(** *** What a run of [GET] does and leaves alone *)

Lemma lookup_events_kind req st ev :
  ev ∈ lookup_events req st → is_lookup_event ev = true.
Proof.
  unfold lookup_events, bridge_events.
  destruct (bridged_token req); cbn; rewrite !elem_of_cons, elem_of_nil;
    intros H; repeat (destruct H as [-> | H]; [reflexivity|]); contradiction.
Qed.

Lemma bridged_token_split req h t :
  headers req !! "authorization" = Some h →
  JS.split " " h !! 1%nat = Some t →
  t ≠ EmptyString →
  bridged_token req = Some t.
Proof.
  intros Hh Ht Hne. unfold bridged_token. rewrite Hh, Ht.
  by destruct t.
Qed.

(** A request whose session does not resolve is answered 401 after the
    cookie write (if any), the session lookup, the reading of the cookies
    and their logging, and nothing else: no identifier, no row, no
    outbound call, in any deployment, and nothing awaited.  The cookie
    written for the token stays in the store. *)
Theorem unauthorized_run w net env req st :
  resolved w req st = None →
  ∃ st' r evs,
    exec w net (GET env req) st = Finished st' r
    ∧ status r = 401%Z
    ∧ trace st' = trace st ++ evs
    ∧ (∀ ev, ev ∈ evs → is_lookup_event ev = true)
    ∧ fetches (trace st') = fetches (trace st)
    ∧ ∀ h t, headers req !! "authorization" = Some h →
             JS.split " " h !! 1%nat = Some t →
             t ≠ EmptyString →
             cookieJar st' !! "next-auth.session-token"
             = Some {| name := "next-auth.session-token"; value := t;
                       path := "/"; sameSite := SameSiteNone;
                       secure := true; httpOnly := true |}.
Proof.
  intros Hu. rewrite exec_GET, Hu.
  exists (at_lookup req st), (unauthorized env req), (lookup_events req st).
  split; [reflexivity|]. split; [reflexivity|]. split; [reflexivity|].
  split; [apply lookup_events_kind|]. split.
  - cbn [at_lookup trace]. unfold fetches. rewrite omap_app.
    fold (fetches (lookup_events req st)).
    by rewrite fetches_lookup_events, app_nil_r.
  - intros h t Hh Ht Hne. cbn [at_lookup cookieJar]. unfold jar_at_lookup.
    rewrite (bridged_token_split req h t Hh Ht Hne).
    apply lookup_insert_eq.
Qed.

Lemma unauthorized_run_witness :
  ∃ st' r,
    exec Sample.world None
      (GET Sample.hosted (Sample.request (Some "Bearer stale") None))
      Sample.empty = Finished st' r
    ∧ status r = 401%Z
    ∧ value <$> cookieJar st' !! "next-auth.session-token" = Some "stale".
Proof.
  destruct (unauthorized_run Sample.world None Sample.hosted
              (Sample.request (Some "Bearer stale") None) Sample.empty)
    as (st' & r & evs & E & Hs & _ & _ & _ & Hc); [vm_compute; reflexivity|].
  exists st', r. split; [exact E|]. split; [exact Hs|].
  rewrite (Hc "Bearer stale" "stale"); [reflexivity | reflexivity
    | reflexivity | discriminate].
Defined.

(** Every run of [GET], authorised or not, logs the whole cookie store
    under the label [cookies:] after the token bridge: the log entry holds
    the session cookie with the bridged token as its value, and every
    other cookie of the store. *)
Theorem GET_logs_cookies w net env req st :
  ∃ all,
    EvConsoleLog (LogCookies "cookies:" all)
      ∈ trace (final_store (exec w net (GET env req) st))
    ∧ (∀ h t, headers req !! "authorization" = Some h →
              JS.split " " h !! 1%nat = Some t →
              t ≠ EmptyString →
              {| name := "next-auth.session-token"; value := t;
                 path := "/"; sameSite := SameSiteNone;
                 secure := true; httpOnly := true |} ∈ all)
    ∧ (∀ k c, k ≠ "next-auth.session-token" →
              cookieJar st !! k = Some c → c ∈ all).
Proof.
  destruct (GET_final_store w net env req st) as (evs & _ & Htr & _).
  exists (snd <$> map_to_list (jar_at_lookup req st)).
  split; [|split].
  - rewrite Htr. unfold lookup_events.
    rewrite !elem_of_app. right. left. right.
    rewrite !elem_of_cons. auto.
  - intros h t Hh Ht Hne. apply list_elem_of_fmap.
    exists ("next-auth.session-token", session_cookie t).
    split; [reflexivity|]. apply elem_of_map_to_list.
    unfold jar_at_lookup. rewrite (bridged_token_split req h t Hh Ht Hne).
    apply lookup_insert_eq.
  - intros k c Hk Hc. apply list_elem_of_fmap. exists (k, c).
    split; [reflexivity|]. apply elem_of_map_to_list.
    unfold jar_at_lookup. destruct (bridged_token req); [|exact Hc].
    by rewrite lookup_insert_ne.
Qed.

Lemma GET_logs_cookies_witness :
  ∃ all,
    EvConsoleLog (LogCookies "cookies:" all)
      ∈ trace (final_store
                 (exec Sample.world None
                    (GET Sample.self_hosted
                       (Sample.request (Some "Bearer s3cr3t") None))
                    Sample.empty))
    ∧ session_cookie "s3cr3t" ∈ all.
Proof.
  destruct (GET_logs_cookies Sample.world None Sample.self_hosted
              (Sample.request (Some "Bearer s3cr3t") None) Sample.empty)
    as (all & Hlog & Htok & _).
  exists all. split; [exact Hlog|].
  apply (Htok "Bearer s3cr3t" "s3cr3t");
    [reflexivity | reflexivity | discriminate].
Defined.

(** A run of [GET] changes no cookie but the session cookie, keeps every
    row the table had, in order, and adds at most one. *)
Theorem GET_frame w net env req st :
  let st' := final_store (exec w net (GET env req) st) in
  (∀ k, k ≠ "next-auth.session-token" →
        cookieJar st' !! k = cookieJar st !! k)
  ∧ videos st `prefix_of` videos st'
  ∧ (length (videos st') ≤ S (length (videos st)))%nat
  ∧ trace st `prefix_of` trace st'.
Proof.
  intros st'. subst st'.
  destruct (GET_final_store w net env req st) as (evs & Hjar & Htr & _).
  split; [|split; [|split]].
  - intros k Hk. rewrite Hjar. unfold jar_at_lookup.
    destruct (bridged_token req); [|done]. by rewrite lookup_insert_ne.
  - rewrite exec_GET. destruct (resolved w req st);
      [destruct (hosted_production env); [destruct net|]|]; cbn;
      try apply prefix_app_r; done.
  - rewrite exec_GET. destruct (resolved w req st);
      [destruct (hosted_production env); [destruct net|]|]; cbn;
      rewrite ?length_app; cbn; lia.
  - rewrite Htr. by apply prefix_app_r.
Qed.

Lemma GET_frame_witness :
  cookieJar
    (final_store
       (exec Sample.world None
          (GET Sample.hosted (Sample.request (Some "Bearer abc123") None))
          Sample.empty)) !! "theme" = None.
Proof.
  destruct (GET_frame Sample.world None Sample.hosted
              (Sample.request (Some "Bearer abc123") None) Sample.empty)
    as [H _].
  rewrite (H "theme"); [reflexivity | discriminate].
Defined.

(** The row is inserted before the short-link call is made: in a hosted
    production deployment, with a resolved user, a run in which the call
    has not settled has no response, yet the row is in the table, and the
    last two things done are the insert and then the call. *)
Theorem row_inserted_before_call w env req st u :
  resolved w req st = Some u →
  JS.truthy (NEXT_PUBLIC_IS_CAP env) = true →
  NEXT_PUBLIC_ENVIRONMENT env = Some "production" →
  ∃ st1 row url init evs,
    exec w None (GET env req) st = Pending st1 url init
    ∧ videos st1 = videos st ++ [row]
    ∧ id row = nanoId w
    ∧ ownerId row = userId u
    ∧ trace st1 = evs ++ [EvDbInsert row; EvFetch url init].
Proof.
  intros Hu H1 H2.
  assert (Hp : hosted_production env = true)
    by (by apply hosted_production_flags).
  rewrite exec_GET, Hu, Hp.
  exists (with_events [EvFetch dub_url (dub_init w env)]
            (at_insert w env req u st)),
    (new_video w env u), dub_url, (dub_init w env),
    (trace st ++ lookup_events req st ++ [EvNanoId; EvNewDate]).
  split; [reflexivity|]. split; [reflexivity|].
  split; [reflexivity|]. split; [reflexivity|].
  cbn [with_events at_insert trace]. by rewrite <- !app_assoc.
Qed.

Lemma row_inserted_before_call_witness :
  ∃ st1 url init,
    exec Sample.world None
      (GET Sample.hosted (Sample.request (Some "Bearer abc123") None))
      Sample.empty = Pending st1 url init
    ∧ length (videos st1) = 1%nat.
Proof.
  destruct (row_inserted_before_call Sample.world Sample.hosted
              (Sample.request (Some "Bearer abc123") None) Sample.empty
              {| userId := "u1" |})
    as (st1 & row & url & init & evs & E & Hv & _);
    [vm_compute; reflexivity | reflexivity | reflexivity |].
  exists st1, url, init. split; [exact E|]. rewrite Hv. reflexivity.
Defined.



(** The short-link call registers the row just inserted: its body is the
    JSON text of an object whose [key] is the row's [id] and whose [url]
    is [NEXT_PUBLIC_URL] followed by [/s/] and that [id], the same [id]
    the response carries; it is a [POST] with a JSON content type and the
    API key as bearer.  An unset [NEXT_PUBLIC_URL] or [DUB_API_KEY] does
    not stop the call: it goes out with the text [undefined] in its place. *)
Theorem dub_call_registers_row w o env req st u :
  resolved w req st = Some u →
  JS.truthy (NEXT_PUBLIC_IS_CAP env) = true →
  NEXT_PUBLIC_ENVIRONMENT env = Some "production" →
  ∃ st' r row url init obj,
    exec w (Some o) (GET env req) st = Finished st' r
    ∧ videos st' = videos st ++ [row]
    ∧ fetches (trace st') = fetches (trace st) ++ [(url, init)]
    ∧ url = "https://api.dub.co/links?projectSlug=cap"
    ∧ method init = "POST"
    ∧ request_headers init
      = [ ("Authorization",
            "Bearer " +:+ match DUB_API_KEY env with
                          | Some k => k
                          | None => "undefined"
                          end);
          ("Content-Type", "application/json") ]
    ∧ request_body init
      = JS.stringify (JS.Obj
          [ ("url", JS.Str (match NEXT_PUBLIC_URL env with
                            | Some base => base
                            | None => "undefined"
                            end +:+ "/s/" +:+ id row));
            ("key", JS.Str (id row)) ])
    ∧ body r = JS.stringify obj
    ∧ JS.prop "id" obj = JS.Str (id row).
Proof.
  intros Hu H1 H2.
  assert (Hp : hosted_production env = true)
    by (by apply hosted_production_flags).
  rewrite exec_GET, Hu, Hp.
  exists (with_events [EvFetch dub_url (dub_init w env); dub_logged o]
            (at_insert w env req u st)),
    (created w env req u), (new_video w env u), dub_url, (dub_init w env),
    (created_body w env u).
  split; [reflexivity|]. split; [reflexivity|]. split.
  { cbn [with_events at_insert trace]. unfold fetches.
    rewrite !omap_app. fold (fetches (lookup_events req st)).
    rewrite fetches_lookup_events.
    destruct o as [[[v|err]]|err]; cbn; by rewrite ?app_nil_r. }
  repeat split; reflexivity.
Qed.

Lemma dub_call_registers_row_witness :
  ∃ st' r init,
    exec Sample.world (Some Sample.dub_ok)
      (GET Sample.hosted (Sample.request (Some "Bearer abc123") None))
      Sample.empty = Finished st' r
    ∧ fetches (trace st')
      = [("https://api.dub.co/links?projectSlug=cap", init)]
    ∧ request_body init
      = JS.stringify (JS.Obj [ ("url", JS.Str "https://cap.so/s/v1d30");
                               ("key", JS.Str "v1d30") ]).
Proof.
  destruct (dub_call_registers_row Sample.world Sample.dub_ok Sample.hosted
              (Sample.request (Some "Bearer abc123") None) Sample.empty
              {| userId := "u1" |})
    as (st' & r & row & url & init & obj & E & Hv & Hf & -> & _ & _ & Hb & _);
    [vm_compute; reflexivity | reflexivity | reflexivity |].
  exists st', r, init. split; [exact E|]. split; [exact Hf|].
  rewrite Hb.
  assert (Hrow : id row = "v1d30").
  { revert E Hv. rewrite exec_GET. vm_compute. intros [= <- _] Hv.
    by injection Hv as <-. }
  rewrite Hrow. reflexivity.
Defined.

(** *** The origin parameter *)

Lemma finished_headers w net env req st r :
  (exec w net (OPTIONS env req) st = Finished st r
   ∨ ∃ st', exec w net (GET env req) st = Finished st' r) →
  header "Access-Control-Allow-Origin" r
  = Some (spec_cors_origin (allowedOrigins env) (origin_of req)
            (nextUrl_origin req)).
Proof.
  intros H.
  assert (Hr : response_headers r = spec_cors_headers env req).
  { destruct H as [H | [st' H]].
    - rewrite exec_OPTIONS in H. by inversion H.
    - by destruct (GET_response_headers _ _ _ _ _ _ _ H). }
  unfold header. by rewrite Hr.
Qed.

(** An [origin] parameter that is there but empty counts as no
    parameter, on every response path, even when the empty string is in
    the allow-list ([NEXT_PUBLIC_URL] set to the empty string): the header
    is the request origin when that is allowed and [null] otherwise. *)
Theorem empty_origin_is_no_origin w net env req st r :
  searchParams_get "origin" (searchParams req) = Some EmptyString →
  (exec w net (OPTIONS env req) st = Finished st r
   ∨ ∃ st', exec w net (GET env req) st = Finished st' r) →
  header "Access-Control-Allow-Origin" r
  = Some (if bool_decide (Some (nextUrl_origin req) ∈ allowedOrigins env)
          then nextUrl_origin req else "null").
Proof.
  intros Ho H. rewrite (finished_headers _ _ _ _ _ _ H).
  unfold origin_of. by rewrite Ho.
Qed.

Lemma empty_origin_is_no_origin_witness :
  Some EmptyString ∈ allowedOrigins Sample.blank_url
  ∧ header "Access-Control-Allow-Origin"
      {| status := 200; body := None;
         response_headers :=
           spec_cors_headers Sample.blank_url
             (Sample.request None (Some EmptyString)) |}
    = Some "null".
Proof.
  split; [apply elem_of_cons; by left|].
  rewrite (empty_origin_is_no_origin Sample.world None Sample.blank_url
             (Sample.request None (Some EmptyString)) Sample.empty _
             eq_refl (or_introl (exec_OPTIONS _ _ _ _ _))).
  vm_compute. reflexivity.
Defined.

(** The four origins written into the route are allowed in every
    deployment, whatever the environment and the request origin: given as
    the [origin] parameter, each comes back as the header on every
    response path. *)
Theorem fixed_origins_allowed w net env req st r o :
  o ∈ [ "http://localhost:3001"; "tauri://localhost";
        "http://tauri.localhost"; "https://tauri.localhost" ] →
  searchParams_get "origin" (searchParams req) = Some o →
  (exec w net (OPTIONS env req) st = Finished st r
   ∨ ∃ st', exec w net (GET env req) st = Finished st' r) →
  header "Access-Control-Allow-Origin" r = Some o.
Proof.
  intros Hin Ho H. rewrite (finished_headers _ _ _ _ _ _ H).
  unfold origin_of. rewrite Ho.
  assert (Hmem : Some o ∈ allowedOrigins env).
  { unfold allowedOrigins. apply elem_of_cons. right.
    revert Hin. rewrite !elem_of_cons, !elem_of_nil.
    intros [-> | [-> | [-> | [-> | []]]]]; auto 10. }
  assert (Htr : JS.truthy (Some o) = true).
  { revert Hin. rewrite !elem_of_cons, !elem_of_nil.
    intros [-> | [-> | [-> | [-> | []]]]]; reflexivity. }
  unfold JS.or_null. rewrite Htr. unfold spec_cors_origin.
  by rewrite bool_decide_eq_true_2.
Qed.

Lemma fixed_origins_allowed_witness :
  header "Access-Control-Allow-Origin"
    {| status := 200; body := None;
       response_headers :=
         spec_cors_headers Sample.blank_url
           (Sample.request None (Some "tauri://localhost")) |}
  = Some "tauri://localhost".
Proof.
  apply (fixed_origins_allowed Sample.world None Sample.blank_url
           (Sample.request None (Some "tauri://localhost")) Sample.empty).
  - apply elem_of_cons. right. apply elem_of_cons. by left.
  - reflexivity.
  - left. vm_compute. reflexivity.
Defined.

(** With [NEXT_PUBLIC_URL] unset the header is one of the four origins
    written into the route or [null], on every response path; the missing
    entry of the allow-list matches no origin, not even the text
    [undefined]. *)
Theorem unset_public_url w net env req st r :
  NEXT_PUBLIC_URL env = None →
  (exec w net (OPTIONS env req) st = Finished st r
   ∨ ∃ st', exec w net (GET env req) st = Finished st' r) →
  ∃ h, header "Access-Control-Allow-Origin" r = Some h
     ∧ (h ∈ fixed_origins ∨ h = "null").
Proof.
  intros Hurl H. rewrite (finished_headers _ _ _ _ _ _ H).
  eexists. split; [reflexivity|].
  assert (Hmem : ∀ x, Some x ∈ allowedOrigins env → x ∈ fixed_origins).
  { intros x. unfold allowedOrigins, fixed_origins. rewrite Hurl.
    rewrite !elem_of_cons, !elem_of_nil.
    intros [[=] | [[= <-] | [[= <-] | [[= <-] | [[= <-] | []]]]]]; auto 10. }
  unfold spec_cors_origin.
  destruct (origin_of req) as [o|]; repeat case_bool_decide; auto.
Qed.

Lemma unset_public_url_witness :
  ∃ h, header "Access-Control-Allow-Origin"
         {| status := 200; body := None;
            response_headers :=
              spec_cors_headers Sample.self_hosted_no_url
                (Sample.request None (Some "undefined")) |}
       = Some h
     ∧ (h ∈ fixed_origins ∨ h = "null").
Proof.
  apply (unset_public_url Sample.world None Sample.self_hosted_no_url
           (Sample.request None (Some "undefined")) Sample.empty).
  - reflexivity.
  - left. vm_compute. reflexivity.
Defined.

(** *** The body of the 200 response *)

Lemma stringify_created_body w env u :
  JS.stringify (created_body w env u)
  = Some (("{" +:+ JS.quote "id" +:+ ":") +:+ JS.quote (nanoId w)
          +:+ ("," +:+ JS.quote "user_id" +:+ ":") +:+ JS.quote (userId u)
          +:+ later_member "aws_region" (CAP_AWS_REGION env)
          +:+ later_member "aws_bucket" (CAP_AWS_BUCKET env)
          +:+ "}").
Proof.
  unfold created_body, later_member.
  destruct (CAP_AWS_REGION env), (CAP_AWS_BUCKET env);
    cbn [JS.stringify JS.of_string JS.join];
    f_equal; rewrite ?append_assoc, ?append_nil; reflexivity.
Qed.

(** The text of the 200 body: the [id] and the [user_id], then
    [aws_region] and [aws_bucket] each only when its environment variable
    is set; a missing one leaves no property behind, not a [null]. *)
Theorem created_body_text w o env req st u :
  resolved w req st = Some u →
  ∃ st' r,
    exec w (Some o) (GET env req) st = Finished st' r
    ∧ body r
      = Some ("{" +:+ JS.quote "id" +:+ ":" +:+ JS.quote (nanoId w)
              +:+ "," +:+ JS.quote "user_id" +:+ ":" +:+ JS.quote (userId u)
              +:+ match CAP_AWS_REGION env with
                  | Some region =>
                      "," +:+ JS.quote "aws_region" +:+ ":"
                        +:+ JS.quote region
                  | None => EmptyString
                  end
              +:+ match CAP_AWS_BUCKET env with
                  | Some bucket =>
                      "," +:+ JS.quote "aws_bucket" +:+ ":"
                        +:+ JS.quote bucket
                  | None => EmptyString
                  end
              +:+ "}").
Proof.
  intros Hu. rewrite exec_GET, Hu.
  exists (final_store (exec w (Some o) (GET env req) st)),
    (created w env req u).
  rewrite exec_GET, Hu.
  split; [by destruct (hosted_production env)|].
  cbn [created body]. rewrite stringify_created_body.
  unfold later_member.
  first [ reflexivity
        | f_equal; rewrite ?append_assoc, ?append_nil; reflexivity ].
Qed.

Lemma created_body_text_witness :
  ∃ st' r,
    exec Sample.world (Some Sample.dub_ok)
      (GET Sample.self_hosted_no_url
         (Sample.request (Some "Bearer abc123") None))
      Sample.empty = Finished st' r
    ∧ body r
      = Some ("{" +:+ JS.quote "id" +:+ ":" +:+ JS.quote "v1d30"
              +:+ "," +:+ JS.quote "user_id" +:+ ":" +:+ JS.quote "u1"
              +:+ "}").
Proof.
  destruct (created_body_text Sample.world Sample.dub_ok
              Sample.self_hosted_no_url
              (Sample.request (Some "Bearer abc123") None) Sample.empty
              {| userId := "u1" |})
    as (st' & r & E & Hb); [vm_compute; reflexivity|].
  exists st', r. split; [exact E|]. rewrite Hb. reflexivity.
Defined.

(** The response echoes the row: the [id], [user_id], [aws_region] and
    [aws_bucket] of the body are the [id], [ownerId], [awsRegion] and
    [awsBucket] of the row inserted in the same run, the last two being
    the environment's [CAP_AWS_REGION] and [CAP_AWS_BUCKET] as they are,
    set or not. *)
Theorem response_echoes_row w o env req st u :
  resolved w req st = Some u →
  ∃ st' r row obj,
    exec w (Some o) (GET env req) st = Finished st' r
    ∧ videos st' = videos st ++ [row]
    ∧ awsRegion row = CAP_AWS_REGION env
    ∧ awsBucket row = CAP_AWS_BUCKET env
    ∧ body r = JS.stringify obj
    ∧ JS.prop "id" obj = JS.Str (id row)
    ∧ JS.prop "user_id" obj = JS.Str (ownerId row)
    ∧ JS.prop "aws_region" obj
      = match awsRegion row with
        | Some region => JS.Str region
        | None => JS.Undefined
        end
    ∧ JS.prop "aws_bucket" obj
      = match awsBucket row with
        | Some bucket => JS.Str bucket
        | None => JS.Undefined
        end.
Proof.
  intros Hu. rewrite exec_GET, Hu.
  exists (final_store (exec w (Some o) (GET env req) st)),
    (created w env req u), (new_video w env u), (created_body w env u).
  rewrite exec_GET, Hu.
  destruct (hosted_production env); repeat split; reflexivity.
Qed.

Lemma response_echoes_row_witness :
  ∃ st' r row,
    exec Sample.world (Some Sample.dub_down)
      (GET Sample.hosted (Sample.request (Some "Bearer abc123") None))
      Sample.empty = Finished st' r
    ∧ videos st' = [row]
    ∧ awsRegion row = Some "us-east-1".
Proof.
  destruct (response_echoes_row Sample.world Sample.dub_down Sample.hosted
              (Sample.request (Some "Bearer abc123") None) Sample.empty
              {| userId := "u1" |})
    as (st' & r & row & obj & E & Hv & Hr & _); [vm_compute; reflexivity|].
  exists st', r, row. split; [exact E|]. split; [exact Hv|]. exact Hr.
Defined.

Lemma strip_app p x : strip p (p +:+ x) = Some x.
Proof.
  induction p as [|c p IH]; [done|].
  rewrite append_cons. simpl. by rewrite Ascii.eqb_refl.
Qed.

Lemma read_escape_char c rest :
  read_escaped (JS.escape_char c +:+ rest)
  = match read_escaped rest with
    | Some (t, tail) => Some (String c t, tail)
    | None => None
    end.
Proof.
  destruct c as [[] [] [] [] [] [] [] []]; reflexivity.
Qed.

Lemma read_escape s r :
  read_escaped (JS.escape s +:+ String JS.dquote r) = Some (s, r).
Proof.
  induction s as [|c s IH]; [reflexivity|].
  cbn [JS.escape]. rewrite append_assoc, read_escape_char. by rewrite IH.
Qed.

Lemma read_quote s r : read_quoted (JS.quote s +:+ r) = Some (s, r).
Proof.
  unfold JS.quote. rewrite append_cons. cbn [read_quoted].
  rewrite Ascii.eqb_refl, append_assoc. apply read_escape.
Qed.

Lemma read_created_body w env u text :
  JS.stringify (created_body w env u) = Some text →
  read_id_and_user text = Some (nanoId w, userId u).
Proof.
  rewrite stringify_created_body. intros [= <-].
  unfold read_id_and_user.
  rewrite strip_app, read_quote, strip_app, read_quote. reflexivity.
Qed.

(** The text of the 200 body determines the identifier and the user:
    two runs, in any deployments, that answer 200 with the same body text
    have generated the same [id] for the same [userId], whatever
    characters these strings hold. *)
Theorem created_body_determines_id
    w1 w2 o1 o2 env1 env2 req1 req2 st1 st2 u1 u2 st1' st2' r1 r2 :
  resolved w1 req1 st1 = Some u1 →
  resolved w2 req2 st2 = Some u2 →
  exec w1 (Some o1) (GET env1 req1) st1 = Finished st1' r1 →
  exec w2 (Some o2) (GET env2 req2) st2 = Finished st2' r2 →
  body r1 = body r2 →
  nanoId w1 = nanoId w2 ∧ userId u1 = userId u2.
Proof.
  intros Hu1 Hu2. rewrite !exec_GET, Hu1, Hu2. intros E1 E2 Hb.
  assert (B1 : body r1 = JS.stringify (created_body w1 env1 u1))
    by (destruct (hosted_production env1); by injection E1 as _ <-).
  assert (B2 : body r2 = JS.stringify (created_body w2 env2 u2))
    by (destruct (hosted_production env2); by injection E2 as _ <-).
  rewrite B1 in Hb.
  destruct (JS.stringify (created_body w1 env1 u1)) as [text|] eqn:T1;
    [|by rewrite stringify_created_body in T1].
  rewrite B2 in Hb. symmetry in Hb.
  apply read_created_body in T1, Hb. rewrite T1 in Hb.
  by injection Hb as -> ->.
Qed.

Lemma created_body_determines_id_witness :
  nanoId Sample.world = nanoId Sample.world
  ∧ userId {| userId := "u1" |} = userId {| userId := "u1" |}.
Proof.
  eapply (created_body_determines_id Sample.world Sample.world
            Sample.dub_ok Sample.dub_down Sample.hosted Sample.hosted
            (Sample.request (Some "Bearer abc123") None)
            (Sample.request (Some "Token abc123") None)
            Sample.empty Sample.empty);
    vm_compute; reflexivity.
Defined.
